(** * Receipt OCR pipeline: image normalizer and line-item extractor

  A shallow embedding of [preprocessImage] and [parseReceiptImage]
  (the OCR service of the bill-splitting application) together with the
  properties of the extraction heuristics.

  - JavaScript strings are sequences of UTF-16 code units ([list N]).
  - JavaScript numbers are IEEE-754 binary64 values, modelled with the
    standard library's [SpecFloat] at precision 53 and [emax] 1024.
  - Regular expressions are backtracking matchers that return the list of
    all successes in priority order; the head of the list is the match that
    the engine reports.
  - The asynchronous pipeline is a state-and-exception monad over a log of
    the observable events (worker life cycle, console output); an
    invocation that awaits a promise which stays pending hangs.
  - The component of [src/App.tsx] is a transition system: its six state
    cells form a record, its handlers are functions on that record, and
    the controls that each screen renders decide which events are
    enabled. *)

From Stdlib Require Import String Ascii.
From Stdlib Require Import List NArith ZArith Bool Lia.
From Stdlib Require Import Sorting.Permutation.
From Stdlib Require Import Floats.SpecFloat.
Import ListNotations.

(* ===================================================================== *)
(** ** JavaScript strings *)
(* ===================================================================== *)

Module JsString.

Local Open Scope N_scope.

Definition codeunit := N.
Definition jsstring := list codeunit.

(** A string literal of the source, as code units (ASCII literals only). *)
Definition js (s : string) : jsstring :=
  map N_of_ascii (list_ascii_of_string s).

(** [WhiteSpace] and [LineTerminator] code units: the set removed by
    [String.prototype.trim] and matched by the class escape [\s]. *)
Definition isWhiteSpace (c : codeunit) : bool :=
  ((9 <=? c) && (c <=? 13)) || (c =? 32) || (c =? 160) || (c =? 5760)
  || ((8192 <=? c) && (c <=? 8202)) || (c =? 8232) || (c =? 8233)
  || (c =? 8239) || (c =? 8287) || (c =? 12288) || (c =? 65279).

(** Line terminators, which the atom [.] does not match. *)
Definition isLineTerminator (c : codeunit) : bool :=
  (c =? 10) || (c =? 13) || (c =? 8232) || (c =? 8233).

(** The units [,], [.] and line feed. *)
Definition comma : codeunit := 44.
Definition dot : codeunit := 46.
Definition lf : codeunit := 10.

Definition isDigit (c : codeunit) : bool := (48 <=? c) && (c <=? 57).
Definition isLower (c : codeunit) : bool := (97 <=? c) && (c <=? 122).
Definition isUpper (c : codeunit) : bool := (65 <=? c) && (c <=? 90).

Fixpoint trimStart (s : jsstring) : jsstring :=
  match s with
  | [] => []
  | c :: r => if isWhiteSpace c then trimStart r else s
  end.

Definition trimEnd (s : jsstring) : jsstring := rev (trimStart (rev s)).

Definition trim (s : jsstring) : jsstring := trimEnd (trimStart s).

(** [s.split('\n')]: the pieces between line feeds; never empty. *)
Fixpoint split_lf (s : jsstring) : list jsstring :=
  match s with
  | [] => [[]]
  | c :: r =>
      if c =? lf then [] :: split_lf r
      else match split_lf r with
           | l :: ls => (c :: l) :: ls
           | [] => [[c]]
           end
  end.

(** [s.indexOf(c)] for a one-unit search string: first index, or -1. *)
Fixpoint indexOf (c : codeunit) (s : jsstring) : Z :=
  match s with
  | [] => (-1)%Z
  | d :: r =>
      if d =? c then 0%Z
      else match indexOf c r with
           | Zneg _ => (-1)%Z
           | i => Z.succ i
           end
  end.

(** Index of the last occurrence, or -1 ([lastIndexOf]); the source never
    calls it, it states what "rightmost" means. *)
Definition lastIndexOf (c : codeunit) (s : jsstring) : Z :=
  match indexOf c (rev s) with
  | Zneg _ => (-1)%Z
  | i => (Z.of_nat (length s) - 1 - i)%Z
  end.

(** [s.replace(/[class]/g, '')]: every unit of the class is dropped. *)
Definition removeAll (p : codeunit -> bool) (s : jsstring) : jsstring :=
  filter (fun c => negb (p c)) s.

(** [s.replace(c, d)] with a string pattern: only the first occurrence. *)
Fixpoint replaceFirstUnit (c d : codeunit) (s : jsstring) : jsstring :=
  match s with
  | [] => []
  | x :: r => if x =? c then d :: r else x :: replaceFirstUnit c d r
  end.

(** [s.substring(0, n)]. *)
Definition substring0 (n : nat) (s : jsstring) : jsstring := firstn n s.

(** [lines.join('\n')] *)
Definition joinLf (lines : list jsstring) : jsstring :=
  match lines with
  | [] => []
  | l :: ls => l ++ flat_map (fun x => lf :: x) ls
  end.

End JsString.

(* ===================================================================== *)
(** ** Backtracking regular expressions *)
(* ===================================================================== *)

Module Regex.
Import JsString.

(** The matcher state: index reached, input still to be read, and the
    captures recorded so far (most recent first). *)
Record state := mkState {
  pos : nat;
  rest : jsstring;
  caps : list (nat * jsstring)
}.

(** A matcher maps a state to all the states in which it can succeed, in
    the order in which a backtracking engine tries them. *)
Definition matcher := state -> list state.

Definition chr (p : codeunit -> bool) : matcher := fun st =>
  match rest st with
  | c :: r => if p c then [mkState (S (pos st)) r (caps st)] else []
  | [] => []
  end.

Definition eps : matcher := fun st => [st].

Definition seq (m1 m2 : matcher) : matcher := fun st =>
  flat_map m2 (m1 st).

Definition alt (m1 m2 : matcher) : matcher := fun st => m1 st ++ m2 st.

(** [^] and [$] without the multiline flag. *)
Definition bol : matcher := fun st =>
  match pos st with O => [st] | S _ => [] end.

Definition eol : matcher := fun st =>
  match rest st with [] => [st] | _ :: _ => [] end.

(** An iteration of a quantifier at minimum 0 is abandoned when it
    consumed nothing. *)
Definition advanced (st st' : state) : bool :=
  (length (rest st') <? length (rest st))%nat.

Definition progress (m : matcher) : matcher := fun st =>
  filter (advanced st) (m st).

(** [m{n}] *)
Fixpoint times (n : nat) (m : matcher) : matcher :=
  match n with
  | O => eps
  | S n' => seq m (times n' m)
  end.

(** [m{0,n}], greedy: one more iteration is tried before leaving. *)
Fixpoint upto (n : nat) (m : matcher) : matcher := fun st =>
  match n with
  | O => [st]
  | S n' => flat_map (upto n' m) (progress m st) ++ [st]
  end.

(** [m{lo,hi}], greedy. *)
Definition range (lo hi : nat) (m : matcher) : matcher :=
  seq (times lo m) (upto (hi - lo) m).

(** [m*], greedy.  Every iteration shortens the input, so the length of
    the remaining input bounds the number of iterations. *)
Fixpoint star_fuel (fuel : nat) (m : matcher) : matcher := fun st =>
  match fuel with
  | O => [st]
  | S f => flat_map (star_fuel f m) (progress m st) ++ [st]
  end.

Definition star (m : matcher) : matcher := fun st =>
  star_fuel (length (rest st)) m st.

(** [m*?], lazy: leaving is tried before one more iteration. *)
Fixpoint lazy_star_fuel (fuel : nat) (m : matcher) : matcher := fun st =>
  match fuel with
  | O => [st]
  | S f => st :: flat_map (lazy_star_fuel f m) (progress m st)
  end.

Definition lazy_star (m : matcher) : matcher := fun st =>
  lazy_star_fuel (length (rest st)) m st.

(** [m+] and [m+?] *)
Definition plus (m : matcher) : matcher := seq m (star m).
Definition lazy_plus (m : matcher) : matcher := seq m (lazy_star m).

(** Capturing group number [i]. *)
Definition group (i : nat) (m : matcher) : matcher := fun st =>
  map (fun st' =>
         mkState (pos st') (rest st')
                 ((i, firstn (pos st' - pos st) (rest st)) :: caps st'))
      (m st).

(** A literal, unit by unit, under a unit comparison. *)
Fixpoint lit (eqb : codeunit -> codeunit -> bool) (w : jsstring) : matcher :=
  match w with
  | [] => eps
  | c :: w' => seq (chr (eqb c)) (lit eqb w')
  end.

(** Ordered alternation of a list of matchers. *)
Fixpoint alts (ms : list matcher) : matcher :=
  match ms with
  | [] => fun _ => []
  | m :: ms' => alt m (alts ms')
  end.

(** [RegExp.prototype.exec] without the global or sticky flag: start
    offsets are tried from the left, and at each offset the first success
    of the matcher wins.  The result is the offset and the final state. *)
Fixpoint exec_from (m : matcher) (i : nat) (s : jsstring)
  : option (nat * state) :=
  match m (mkState i s []) with
  | st :: _ => Some (i, st)
  | [] => match s with
          | [] => None
          | _ :: r => exec_from m (S i) r
          end
  end.

Definition exec (m : matcher) (s : jsstring) : option (nat * state) :=
  exec_from m 0 s.

Definition test (m : matcher) (s : jsstring) : bool :=
  match exec m s with Some _ => true | None => false end.

(** Capture [i] of a final state ([match[i]]). *)
Fixpoint lookup (i : nat) (cs : list (nat * jsstring)) : option jsstring :=
  match cs with
  | [] => None
  | (j, w) :: cs' => if Nat.eqb i j then Some w else lookup i cs'
  end.

(** [s.replace(re, '')] for a regular expression without the global flag:
    the first match is cut out. *)
Definition replaceFirst (m : matcher) (s : jsstring) : jsstring :=
  match exec m s with
  | Some (i, st) => firstn i s ++ rest st
  | None => s
  end.

(** [Canonicalize] under the [i] flag without the [u] flag maps a unit to
    its upper-case form, except that a unit above 127 is never mapped to a
    unit below 128.  Against the ASCII letters of a pattern the comparison
    is therefore decided by the ASCII range alone; units above 127 are
    left as they are here. *)
Definition canonicalize (c : codeunit) : codeunit :=
  if isLower c then (c - 32)%N else c.

Definition eqb_ci (a b : codeunit) : bool :=
  (canonicalize a =? canonicalize b)%N.

End Regex.

(* ===================================================================== *)
(** ** JavaScript numbers *)
(* ===================================================================== *)

Module JsNumber.
Import JsString.
Local Open Scope Z_scope.

Definition Number := spec_float.

Definition prec : Z := 53.
Definition emax : Z := 1024.

Definition NaN : Number := S754_nan.

(** An integer as a number (rounded to nearest-even when it needs more
    than 53 bits). *)
Definition ofZ (z : Z) : Number := binary_normalize prec emax z 0 false.

Definition mul (x y : Number) : Number := SFmul prec emax x y.
Definition add (x y : Number) : Number := SFadd prec emax x y.
Definition div (x y : Number) : Number := SFdiv prec emax x y.
Definition ltb (x y : Number) : bool := SFltb x y.
Definition gtb (x y : Number) : bool := SFltb y x.
Definition isNaN (x : Number) : bool :=
  match x with S754_nan => true | _ => false end.

(** The value of the decimal numeral with digits [m] (read as one
    integer) and [k] digits after the point: the binary64 number nearest
    to [m / 10^k], ties to even.  Both [parseFloat] and a numeric literal
    of the source denote their numerals this way. *)
Definition decimal (m : Z) (k : nat) : Number :=
  match m with
  | Zpos p => SFdiv prec emax (S754_finite false p 0)
                    (S754_finite false (Z.to_pos (10 ^ Z.of_nat k)) 0)
  | _ => S754_zero false
  end.

(** [Math.round]: the integer nearest to [x], ties towards +infinity,
    i.e. [floor (x + 1/2)] computed exactly.  Numbers that are not finite
    are given 0, the value an integer-typed canvas attribute takes. *)
Definition round (x : Number) : Z :=
  match x with
  | S754_finite s m e =>
      let v := if s then Zneg m else Zpos m in
      match e with
      | Zneg q => Z.shiftr (2 * v + Z.pow 2 (Zpos q)) (Zpos q + 1)
      | _ => Z.shiftl v e
      end
  | _ => 0%Z
  end.

(** [ToUint8Clamp], the conversion applied by a store into a
    [Uint8ClampedArray]: NaN gives 0, the value is clamped to [0, 255]
    and rounded to the nearest integer, ties to even. *)
Definition toUint8Clamp (x : Number) : Z :=
  match x with
  | S754_nan => 0
  | S754_zero _ => 0
  | S754_infinity s => if s then 0 else 255
  | S754_finite true _ _ => 0
  | S754_finite false m e =>
      match e with
      | Zneg q =>
          let d := Z.pow 2 (Zpos q) in
          let f := Z.div (Zpos m) d in
          let r := Z.modulo (Zpos m) d in
          let n := match Z.compare (2 * r) d with
                   | Lt => f
                   | Gt => f + 1
                   | Eq => if Z.even f then f else f + 1
                   end in
          Z.min 255 n
      | _ => Z.min 255 (Z.shiftl (Zpos m) e)
      end
  end.

(** The integer written by a run of decimal digits. *)
Definition digitsValue (ds : jsstring) : Z :=
  fold_left (fun a c => 10 * a + (Z.of_N c - 48)) ds 0.

(** The longest prefix whose units satisfy [p], and what follows it. *)
Fixpoint span (p : codeunit -> bool) (s : jsstring) : jsstring * jsstring :=
  match s with
  | c :: r => if p c then let (a, b) := span p r in (c :: a, b) else ([], s)
  | [] => ([], [])
  end.

(** [parseFloat]: leading white space is skipped and the longest prefix
    that is a decimal numeral ([digits], [digits.digits], [digits.] or
    [.digits]) is converted; without such a prefix the result is NaN.
    Signs, exponents and [Infinity] are not modelled: the argument in this
    program is made of digits, [.] and [,] only (lemma [priceStr_units]). *)
Definition parseFloat (s : jsstring) : Number :=
  let (ip, r) := span isDigit (trimStart s) in
  match r with
  | 46%N :: r' =>
      let (fp, _) := span isDigit r' in
      match ip ++ fp with
      | [] => NaN
      | ds => decimal (digitsValue ds) (length fp)
      end
  | _ =>
      match ip with
      | [] => NaN
      | ds => decimal (digitsValue ds) 0
      end
  end.

End JsNumber.

(* ===================================================================== *)
(** ** The line-item extractor (step 3 of [parseReceiptImage]) *)
(* ===================================================================== *)

Module Extractor.
Import JsString Regex JsNumber.
Local Open Scope N_scope.

(** [{ name: string; price: number }] *)
Record LineItem := mkItem { name : jsstring; price : Number }.

(** The classes of the regular expressions of the source. *)
Definition anyUnit (c : codeunit) : bool := negb (isLineTerminator c).
(** [[.,\s]] *)
Definition isGroupSep (c : codeunit) : bool :=
  (c =? 46) || (c =? 44) || isWhiteSpace c.
(** [[.,]] *)
Definition isDecimalSep (c : codeunit) : bool := (c =? 46) || (c =? 44).
(** [[.|_—-]] (the em dash is U+2014) *)
Definition isLeader (c : codeunit) : bool :=
  (c =? 46) || (c =? 124) || (c =? 95) || (c =? 8212) || (c =? 45).
(** [[a-zA-Z0-9\s%&()-]] *)
Definition isNameUnit (c : codeunit) : bool :=
  isLower c || isUpper c || isDigit c || isWhiteSpace c
  || (c =? 37) || (c =? 38) || (c =? 40) || (c =? 41) || (c =? 45).

(** [[0-9]{1,3}(?:[.,\s]?[0-9]{3})*[.,][0-9]{2}] *)
Definition priceToken : matcher :=
  seq (range 1 3 (chr isDigit))
      (seq (star (seq (upto 1 (chr isGroupSep)) (times 3 (chr isDigit))))
           (seq (chr isDecimalSep) (times 2 (chr isDigit)))).

(** [/^(.+?)\s+([0-9]{1,3}(?:[.,\s]?[0-9]{3})*[.,][0-9]{2})\s*$/] *)
Definition priceRegex : matcher :=
  seq bol
      (seq (group 1 (lazy_plus (chr anyUnit)))
           (seq (plus (chr isWhiteSpace))
                (seq (group 2 priceToken)
                     (seq (star (chr isWhiteSpace)) eol)))).

(** The alternatives of the keyword filter, in the order of the source. *)
Definition keywords : list jsstring :=
  map js ["total"; "subtotal"; "change"; "cash"; "visa"; "mastercard";
          "date"; "time"; "tax"]%string.

(** [/total|subtotal|change|cash|visa|mastercard|date|time|tax/i] *)
Definition keywordRegex : matcher := alts (map (lit eqb_ci) keywords).

(** [/[.|_—-]+$/] *)
Definition trailingLeaders : matcher := seq (plus (chr isLeader)) eol.

(** The clean-up of [match[1]]. *)
Definition cleanName (raw : jsstring) : jsstring :=
  removeAll (fun c => negb (isNameUnit c))
            (replaceFirst trailingLeaders (trim raw)).

(** The normalisation of [match[2]] up to the call of [parseFloat]. *)
Definition normalizePrice (tok : jsstring) : jsstring :=
  let priceStr := removeAll isWhiteSpace tok in
  if Z.gtb (indexOf comma priceStr) (indexOf dot priceStr)
  then replaceFirstUnit comma dot (removeAll (N.eqb dot) priceStr)
  else removeAll (N.eqb comma) priceStr.

(** The condition under which a candidate is pushed. *)
Definition sanityCheck (name : jsstring) (price : Number) : bool :=
  (1 <? length name)%nat && negb (isNaN price)
  && gtb price (ofZ 0) && ltb price (ofZ 10000).

(** [trimmedLine.match(priceRegex)]: the two captures of a match. *)
Definition matchPrice (trimmedLine : jsstring)
  : option (jsstring * jsstring) :=
  match exec priceRegex trimmedLine with
  | Some (_, st) =>
      match lookup 1 (caps st), lookup 2 (caps st) with
      | Some n, Some p => Some (n, p)
      | _, _ => None
      end
  | None => None
  end.

(** The candidate built from one line, before it is pushed: [None] stands
    for [continue], for a failed match and for a failed sanity check. *)
Definition parseLine (line : jsstring) : option LineItem :=
  let trimmedLine := trim line in
  if test keywordRegex trimmedLine then None
  else if (length trimmedLine <? 5)%nat then None
  else match matchPrice trimmedLine with
       | Some (rawName, rawPrice) =>
           let name := cleanName rawName in
           let price := parseFloat (normalizePrice rawPrice) in
           if sanityCheck name price then Some (mkItem name price) else None
       | None => None
       end.

(** One iteration of the loop over the lines: [items.push] or nothing. *)
Definition processLine (items : list LineItem) (line : jsstring)
  : list LineItem :=
  match parseLine line with
  | Some item => items ++ [item]
  | None => items
  end.

(** The loop over [text.split('\n')], from the empty array. *)
Definition extractItems (text : jsstring) : list LineItem :=
  fold_left processLine (split_lf text) [].

End Extractor.

(* ===================================================================== *)
(** ** The image normalizer ([preprocessImage]) *)
(* ===================================================================== *)

Module Normalizer.
Import JsString JsNumber.
Local Open Scope Z_scope.

(** A decoded image: its pixel dimensions and the source it was decoded
    from. *)
Record Image := mkImage { width : Z; height : Z; src : jsstring }.

(** The canvas: its dimensions and the RGBA units of its [ImageData]. *)
Record Canvas := mkCanvas { cwidth : Z; cheight : Z; cdata : list Z }.

(** What the browser decides: whether the image loads ([onload] with the
    decoded image, or [onerror]), whether a 2D context is available, the
    pixels that [drawImage] followed by [getImageData] gives for a target
    size, whether [getImageData] returns at all for a rectangle of
    non-zero area (it throws when the image has made the canvas
    unreadable, or when the buffer cannot be had), and the JPEG data URL
    of a canvas. *)
Record Browser := mkBrowser {
  loadImage : jsstring -> option Image;
  getContext2d : bool;
  drawImage : Image -> Z -> Z -> list Z;
  readsPixels : Image -> Z -> Z -> bool;
  toDataURL : Canvas -> jsstring
}.

Definition MAX_WIDTH : Z := 1500.

(** 1. Resize logic: the dimensions given to the canvas. *)
Definition targetSize (w h : Z) : Z * Z :=
  if w >? MAX_WIDTH
  then (MAX_WIDTH, round (div (mul (ofZ h) (ofZ MAX_WIDTH)) (ofZ w)))
  else (w, h).

(** [data[i]] read as a number; [undefined] out of range turns the
    arithmetic into NaN. *)
Definition readUnit (data : list Z) (i : nat) : Number :=
  match nth_error data i with
  | Some v => ofZ v
  | None => NaN
  end.

(** [data[i] = v]; a store out of range is ignored. *)
Fixpoint writeUnit (data : list Z) (i : nat) (v : Number) : list Z :=
  match data, i with
  | [], _ => []
  | _ :: r, O => toUint8Clamp v :: r
  | x :: r, S i' => x :: writeUnit r i' v
  end.

(** [0.2126 * r + 0.7152 * g + 0.0722 * b] *)
Definition luminance (r g b : Number) : Number :=
  add (add (mul (decimal 2126 4) r) (mul (decimal 7152 4) g))
      (mul (decimal 722 4) b).

(** [(gray > 120) ? 255 : (gray < 80) ? 0 : gray] *)
Definition contrast (gray : Number) : Number :=
  if gtb gray (ofZ 120) then ofZ 255
  else if ltb gray (ofZ 80) then ofZ 0
  else gray.

(** The body of the pixel loop at index [i]. *)
Definition filterPixel (data : list Z) (i : nat) : list Z :=
  let r := readUnit data i in
  let g := readUnit data (i + 1) in
  let b := readUnit data (i + 2) in
  let gray := contrast (luminance r g b) in
  writeUnit (writeUnit (writeUnit data i gray) (i + 1) gray) (i + 2) gray.

(** [for (let i = 0; i < data.length; i += 4)]: the indices visited. *)
Definition pixelIndices (len : nat) : list nat :=
  map (fun k => (4 * k)%nat) (List.seq 0 ((len + 3) / 4)).

Definition filterData (data : list Z) : list Z :=
  fold_left filterPixel (pixelIndices (length data)) data.

(** [ctx.getImageData(0, 0, width, height)] after [drawImage]: [None]
    when it throws, which it does for a rectangle without area (an
    [IndexSizeError]) and when the browser does not let the pixels be
    read. *)
Definition getImageData (b : Browser) (img : Image) (w h : Z)
  : option (list Z) :=
  if (w =? 0) || (h =? 0) then None
  else if readsPixels b img w h then Some (drawImage b img w h)
  else None.

(** The canvas handed to [toDataURL] when a 2D context exists and the
    pixels were read. *)
Definition normalizedCanvas (b : Browser) (img : Image) : Canvas :=
  let (w, h) := targetSize (width img) (height img) in
  mkCanvas w h (filterData (drawImage b img w h)).

(** How the promise returned by [preprocessImage] ends.  An exception
    thrown inside [onload] is caught by nobody: [reject] is called by
    [onerror] only, so the promise then stays pending for ever. *)
Inductive settled :=
| Resolved (image : jsstring)
| Rejected
| Pending.

Definition preprocessImage (b : Browser) (base64Image : jsstring) : settled :=
  match loadImage b base64Image with
  | Some img =>
      if getContext2d b
      then let (w, h) := targetSize (width img) (height img) in
           match getImageData b img w h with
           | Some _ => Resolved (toDataURL b (normalizedCanvas b img))
           | None => Pending
           end
      else Resolved base64Image
  | None => Rejected
  end.

End Normalizer.

(* ===================================================================== *)
(** ** The pipeline ([parseReceiptImage]) *)
(* ===================================================================== *)

Module Pipeline.
Import JsString Extractor Normalizer.

(** The observable events of one invocation, in the order they happen. *)
Inductive event :=
| CreateWorker
| Recognize (image : jsstring)
| Terminate
| ConsoleWarn (sample : jsstring)
| ConsoleError.

(** What can be thrown inside the [try] block, and the error thrown by
    the [catch] block. *)
Inductive exn :=
| ImageLoadError
| EngineError
| Error (message : string).

(** How an awaited computation ends: with a value, with an exception, or
    never, when it awaits a promise that stays pending. *)
Inductive outcome (A : Type) :=
| Ok (a : A)
| Throw (e : exn)
| Hangs.
Arguments Ok {A} a.
Arguments Throw {A} e.
Arguments Hangs {A}.

(** Computations that log events and may throw or hang. *)
Definition M (A : Type) : Type := list event -> outcome A * list event.

Definition ret {A} (a : A) : M A := fun log => (Ok a, log).
Definition throw {A} (e : exn) : M A := fun log => (Throw e, log).
Definition hang {A} : M A := fun log => (Hangs, log).
Definition emit (ev : event) : M unit := fun log => (Ok tt, log ++ [ev]).

Definition bind {A B} (c : M A) (k : A -> M B) : M B := fun log =>
  match c log with
  | (Ok a, log') => k a log'
  | (Throw e, log') => (Throw e, log')
  | (Hangs, log') => (Hangs, log')
  end.

Definition tryCatch {A} (c : M A) (handler : exn -> M A) : M A := fun log =>
  match c log with
  | (Ok a, log') => (Ok a, log')
  | (Throw e, log') => handler e log'
  | (Hangs, log') => (Hangs, log')
  end.

Notation "x <- c ;; k" := (bind c (fun x => k))
  (at level 61, c at next level, right associativity).
Notation "c ;;; k" := (bind c (fun _ => k))
  (at level 61, right associativity).

(** The OCR engine: whether a worker can be created, the text that
    [recognize] returns for an image ([None]: it throws), and whether
    [terminate] succeeds. *)
Record Engine := mkEngine {
  workerStarts : bool;
  recognizedText : jsstring -> option jsstring;
  workerStops : bool
}.

Definition awaitPreprocess (b : Browser) (base64Image : jsstring)
  : M jsstring :=
  match preprocessImage b base64Image with
  | Resolved image => ret image
  | Rejected => throw ImageLoadError
  | Pending => hang
  end.

Definition createWorker (e : Engine) : M unit :=
  emit CreateWorker ;;;
  if workerStarts e then ret tt else throw EngineError.

Definition recognize (e : Engine) (image : jsstring) : M jsstring :=
  emit (Recognize image) ;;;
  match recognizedText e image with
  | Some text => ret text
  | None => throw EngineError
  end.

Definition terminate (e : Engine) : M unit :=
  emit Terminate ;;;
  if workerStops e then ret tt else throw EngineError.

(** [ParseResult] *)
Record ParseResult := mkResult { items : list LineItem }.

Definition failureMessage : string :=
  "Failed to process image. It might be too large or unclear.".

Definition parseReceiptImage (b : Browser) (e : Engine)
           (base64Image : jsstring) : M ParseResult :=
  tryCatch
    (processedImage <- awaitPreprocess b base64Image ;;
     createWorker e ;;;
     text <- recognize e processedImage ;;
     terminate e ;;;
     let items := extractItems text in
     (if Nat.eqb (length items) 0
      then emit (ConsoleWarn (substring0 200 text))
      else ret tt) ;;;
     ret (mkResult items))
    (fun error =>
       emit ConsoleError ;;;
       throw (Error failureMessage)).

(** One invocation, from an empty log. *)
Definition run {A} (c : M A) : outcome A * list event := c [].

End Pipeline.

(* ===================================================================== *)
(** ** The earlier revision of the extractor ([src/services/ocr.ts]) *)
(* ===================================================================== *)

(** The copy of [parseReceiptImage] under [src/services] has no image
    preprocessing, a shorter keyword list, mandatory group separators, a
    one-comma price normalisation and a weaker sanity check.  It is modelled
    with the same building blocks so that the two can be compared. *)
Module Legacy.
Import JsString Regex JsNumber Pipeline.
Local Open Scope N_scope.

(** The class before [+$] in the name clean-up, as the file spells it:
    dot, bar, underscore, U+00E2, U+20AC, U+201D and hyphen. *)
Definition isLeader (c : codeunit) : bool :=
  (c =? 46) || (c =? 124) || (c =? 95) || (c =? 226) || (c =? 8364)
  || (c =? 8221) || (c =? 45).

(** [[0-9]{1,3}(?:[.,][0-9]{3})*[.,][0-9]{2}] *)
Definition priceToken : matcher :=
  seq (range 1 3 (chr isDigit))
      (seq (star (seq (chr Extractor.isDecimalSep) (times 3 (chr isDigit))))
           (seq (chr Extractor.isDecimalSep) (times 2 (chr isDigit)))).

(** [/^(.+?)\s+([0-9]{1,3}(?:[.,][0-9]{3})*[.,][0-9]{2})\s*$/] *)
Definition priceRegex : matcher :=
  seq bol
      (seq (group 1 (lazy_plus (chr Extractor.anyUnit)))
           (seq (plus (chr isWhiteSpace))
                (seq (group 2 priceToken)
                     (seq (star (chr isWhiteSpace)) eol)))).

Definition keywords : list jsstring :=
  map js ["total"; "tax"; "subtotal"; "change"; "cash"; "visa";
          "mastercard"]%string.

(** [/total|tax|subtotal|change|cash|visa|mastercard/i] *)
Definition keywordRegex : matcher := alts (map (lit eqb_ci) keywords).

Definition trailingLeaders : matcher := seq (plus (chr isLeader)) eol.

Definition cleanName (raw : jsstring) : jsstring :=
  trim (replaceFirst trailingLeaders (trim raw)).

(** [match[2].replace(',', '.')] *)
Definition normalizePrice (tok : jsstring) : jsstring :=
  replaceFirstUnit comma dot tok.

Definition sanityCheck (name : jsstring) (price : Number) : bool :=
  (2 <? length name)%nat && negb (isNaN price) && gtb price (ofZ 0).

Definition matchPrice (trimmedLine : jsstring)
  : option (jsstring * jsstring) :=
  match exec priceRegex trimmedLine with
  | Some (_, st) =>
      match lookup 1 (caps st), lookup 2 (caps st) with
      | Some n, Some p => Some (n, p)
      | _, _ => None
      end
  | None => None
  end.

Definition parseLine (line : jsstring) : option Extractor.LineItem :=
  let trimmedLine := trim line in
  if test keywordRegex trimmedLine then None
  else match matchPrice trimmedLine with
       | Some (rawName, rawPrice) =>
           let name := cleanName rawName in
           let price := parseFloat (normalizePrice rawPrice) in
           if sanityCheck name price
           then Some (Extractor.mkItem name price) else None
       | None => None
       end.

Definition processLine (items : list Extractor.LineItem) (line : jsstring)
  : list Extractor.LineItem :=
  match parseLine line with
  | Some item => items ++ [item]
  | None => items
  end.

Definition extractItems (text : jsstring) : list Extractor.LineItem :=
  fold_left processLine (split_lf text) [].

Definition failureMessage : string :=
  "Failed to read receipt. Please try a clearer image.".

Definition parseReceiptImage (e : Engine) (base64Image : jsstring)
  : M ParseResult :=
  tryCatch
    (createWorker e ;;;
     text <- recognize e base64Image ;;
     terminate e ;;;
     let items := extractItems text in
     (if Nat.eqb (length items) 0
      then emit (ConsoleWarn text)
      else ret tt) ;;;
     ret (mkResult items))
    (fun error =>
       emit ConsoleError ;;;
       throw (Error failureMessage)).

End Legacy.

(* ===================================================================== *)
(** ** Predicates and sample inputs that the properties are stated with *)
(* ===================================================================== *)

Module Shapes.
Import JsString Regex JsNumber Extractor Normalizer.

Definition unitsOf (p : codeunit -> bool) (w : jsstring) : Prop :=
  Forall (fun c => p c = true) w.

Definition allWhite (w : jsstring) : Prop := unitsOf isWhiteSpace w.

Definition allDigits (w : jsstring) : Prop := unitsOf isDigit w.

(** Thousands groups in which every group of three digits is preceded by
    its separator. *)
Inductive strictGroups : jsstring -> Prop :=
| sg_nil : strictGroups []
| sg_cons s ds w :
    isGroupSep s = true -> length ds = 3 -> allDigits ds ->
    strictGroups w -> strictGroups (s :: ds ++ w).

(** Thousands groups in which the separator of a group may be absent. *)
Inductive looseGroups : jsstring -> Prop :=
| lg_nil : looseGroups []
| lg_sep s ds w :
    isGroupSep s = true -> length ds = 3 -> allDigits ds ->
    looseGroups w -> looseGroups (s :: ds ++ w)
| lg_bare ds w :
    length ds = 3 -> allDigits ds ->
    looseGroups w -> looseGroups (ds ++ w).

(** Thousands groups whose separators, where present, are all the unit
    [g] or white space, together with the digits they hold. *)
Inductive uniformGroups (g : codeunit) : jsstring -> jsstring -> Prop :=
| ug_nil : uniformGroups g [] []
| ug_sep s ds w dw :
    s = g \/ isWhiteSpace s = true -> length ds = 3 -> allDigits ds ->
    uniformGroups g w dw -> uniformGroups g (s :: ds ++ w) (ds ++ dw)
| ug_bare ds w dw :
    length ds = 3 -> allDigits ds ->
    uniformGroups g w dw -> uniformGroups g (ds ++ w) (ds ++ dw).

(** One to three leading digits, groups, a decimal separator and two
    digits. *)
Definition tokenShape (groups : jsstring -> Prop) (tok : jsstring) : Prop :=
  exists lead grp s cents,
    tok = lead ++ grp ++ s :: cents
    /\ 1 <= length lead <= 3 /\ allDigits lead
    /\ groups grp
    /\ isDecimalSep s = true
    /\ length cents = 2 /\ allDigits cents.

(** The price token in the words of the specification: every group of
    three digits has its separator (dot, comma or white space). *)
Definition specPriceToken : jsstring -> Prop := tokenShape strictGroups.

(** The price token that [priceRegex] accepts: the separator of a group
    is optional. *)
Definition codePriceToken : jsstring -> Prop := tokenShape looseGroups.

(** The units that can reach [parseFloat]. *)
Definition priceUnit (c : codeunit) : bool :=
  isDigit c || (c =? dot)%N || (c =? comma)%N.

(** The sanity predicate on an item of the result. *)
Definition sane (it : LineItem) : Prop :=
  1 < length (name it)
  /\ isNaN (price it) = false
  /\ gtb (price it) (ofZ 0) = true
  /\ ltb (price it) (ofZ 10000) = true.

(** [mid] is the keyword [kw] up to the case of its letters. *)
Definition sameLetters (kw mid : jsstring) : Prop :=
  Forall2 (fun k c => c = k \/ c = (k - 32)%N) kw mid.

(** The line contains the keyword somewhere, in any mix of cases. *)
Definition containsKeyword (kw line : jsstring) : Prop :=
  exists pre mid post, line = pre ++ mid ++ post /\ sameLetters kw mid.

(** What an iteration of the loop adds to the result. *)
Definition contribution (line : jsstring) : list LineItem :=
  match parseLine line with
  | Some it => [it]
  | None => []
  end.

(** Every success of [m] consumed a word of [L] and left the captures as
    they were. *)
Definition accepts (m : matcher) (L : jsstring -> Prop) : Prop :=
  forall st st', In st' (m st) ->
    exists w, rest st = w ++ rest st'
              /\ pos st' = pos st + length w
              /\ caps st' = caps st
              /\ L w.

(** Concatenations of words of [L]. *)
Inductive iterated (L : jsstring -> Prop) : jsstring -> Prop :=
| it_nil : iterated L []
| it_app w1 w2 : L w1 -> iterated L w2 -> iterated L (w1 ++ w2).

(** The gray level of the pixel that starts at index [i] of [data]. *)
Definition grayAt (data : list Z) (i : nat) : Number :=
  luminance (readUnit data i) (readUnit data (i + 1)) (readUnit data (i + 2)).

(** The pixel loop after its first [k] iterations. *)
Definition filterFirst (k : nat) (data : list Z) : list Z :=
  fold_left filterPixel (map (fun j => 4 * j) (List.seq 0 k)) data.

End Shapes.

Module Samples.
Import JsString JsNumber Extractor Normalizer Pipeline.

(** The raw text of the end-to-end scenario. *)
Definition receiptText : jsstring :=
  joinLf (map js ["BURGER PLACE"; "Burger........10.00"; "Fries 5,50";
                  "SUBTOTAL 15.50"; "TAX 1.50"; "TOTAL 17.00"]%string).

(** The same text with a space between the dot leaders and the price. *)
Definition receiptTextSpaced : jsstring :=
  joinLf (map js ["BURGER PLACE"; "Burger........ 10.00"; "Fries 5,50";
                  "SUBTOTAL 15.50"; "TAX 1.50"; "TOTAL 17.00"]%string).

Definition burger : LineItem := mkItem (js "Burger") (decimal 1000 2).
Definition fries : LineItem := mkItem (js "Fries") (decimal 550 2).

Definition sampleSource : jsstring := js "data:image/jpeg;base64,/9j/4AAQ".


(** A browser that decodes a 4000x3000 image and has no 2D context. *)
Definition noContextBrowser : Browser :=
  mkBrowser (fun s => Some (mkImage 4000 3000 s)) false
            (fun _ _ _ => []) (fun _ _ _ => true) (fun _ => js "jpeg").

(** A browser that decodes a 4000x3000 image and draws two pixels. *)
Definition plainBrowser : Browser :=
  mkBrowser (fun s => Some (mkImage 4000 3000 s)) true
            (fun _ _ _ => [80; 80; 80; 255; 200; 100; 50; 255]%Z)
            (fun _ _ _ => true) (fun _ => js "jpeg").

(** A browser that decodes an image of 4000 x 1 pixels. *)
Definition flatBrowser : Browser :=
  mkBrowser (fun s => Some (mkImage 4000 1 s)) true
            (fun _ _ _ => []) (fun _ _ _ => true) (fun _ => js "jpeg").

(** An engine that reads [text] from every image, and one whose
    [recognize] throws. *)
Definition readingEngine (text : jsstring) : Engine :=
  mkEngine true (fun _ => Some text) true.

Definition failingEngine : Engine := mkEngine true (fun _ => None) true.

End Samples.


(* ===================================================================== *)
(** ** The screens of the application ([src/App.tsx]) *)
(* ===================================================================== *)

(** The component state and its handlers, as functions on the state.  The
    identifiers that [generateId] draws from [Math.random] are arguments.
    The summary object is an association list, of which only the
    entries are read, never their order; the identifiers are assumed not
    to name a property of [Object.prototype] (those that [generateId]
    builds, at most seven units among [0-9a-z], never do). *)
Module App.
Import JsString JsNumber Extractor Pipeline.

(** [a === b] on strings. *)
Fixpoint strEq (a b : jsstring) : bool :=
  match a, b with
  | [], [] => true
  | x :: a', y :: b' => N.eqb x y && strEq a' b'
  | _, _ => false
  end.

(** [s.startsWith(prefix)] *)
Fixpoint startsWith (prefix s : jsstring) : bool :=
  match prefix, s with
  | [], _ => true
  | p :: ps, c :: cs => N.eqb p c && startsWith ps cs
  | _ :: _, [] => false
  end.

(** [PartyMember], [ReceiptItem] and [AppStep] of [types.ts]. *)
Record PartyMember := mkMember { memberId : jsstring; memberName : jsstring }.

Record ReceiptItem := mkReceiptItem {
  itemId : jsstring;
  itemName : jsstring;
  itemPrice : Number;
  assignedTo : list jsstring
}.

Inductive AppStep :=
| PartyCreation
| ReceiptUpload
| Verification
| Assignment
| Summary.

(** The six [useState] cells. *)
Record AppState := mkApp {
  step : AppStep;
  partyMembers : list PartyMember;
  items : list ReceiptItem;
  isProcessing : bool;
  error : option string;
  currency : jsstring
}.

Definition setStep (v : AppStep) (s : AppState) : AppState :=
  mkApp v (partyMembers s) (items s) (isProcessing s) (error s) (currency s).
Definition setPartyMembers (v : list PartyMember) (s : AppState) : AppState :=
  mkApp (step s) v (items s) (isProcessing s) (error s) (currency s).
Definition setItems (v : list ReceiptItem) (s : AppState) : AppState :=
  mkApp (step s) (partyMembers s) v (isProcessing s) (error s) (currency s).
Definition setIsProcessing (v : bool) (s : AppState) : AppState :=
  mkApp (step s) (partyMembers s) (items s) v (error s) (currency s).
Definition setError (v : option string) (s : AppState) : AppState :=
  mkApp (step s) (partyMembers s) (items s) (isProcessing s) v (currency s).
Definition setCurrency (v : jsstring) (s : AppState) : AppState :=
  mkApp (step s) (partyMembers s) (items s) (isProcessing s) (error s) v.

(** The first render: two members with generated identifiers, the euro
    sign as currency. *)
Definition initialState (id1 id2 : jsstring) : AppState :=
  mkApp PartyCreation [mkMember id1 (js "You"); mkMember id2 []] []
        false None [8364%N].

(** *** Step 1: the party *)

Definition handleAddMember (newId : jsstring) (s : AppState) : AppState :=
  setPartyMembers (partyMembers s ++ [mkMember newId []]) s.

Definition handleRemoveMember (id : jsstring) (s : AppState) : AppState :=
  if length (partyMembers s) <=? 1 then s
  else setPartyMembers
         (filter (fun m => negb (strEq (memberId m) id)) (partyMembers s)) s.

Definition handleMemberNameChange (id name : jsstring) (s : AppState)
  : AppState :=
  setPartyMembers
    (map (fun m => if strEq (memberId m) id
                   then mkMember (memberId m) name else m)
         (partyMembers s)) s.

(** [name.trim() === ''] *)
Definition isBlank (name : jsstring) : bool :=
  match trim name with [] => true | _ :: _ => false end.

Definition validateParty (s : AppState) : AppState :=
  let validMembers :=
    filter (fun m => negb (isBlank (memberName m))) (partyMembers s) in
  if length validMembers =? 0
  then setError (Some "Please add at least one person."%string) s
  else setStep ReceiptUpload (setError None (setPartyMembers validMembers s)).

(** *** Step 2: the upload *)

(** The chosen file: its MIME type and the data URL that the reader
    produces from it. *)
Record File := mkFile { fileType : jsstring; dataURL : jsstring }.

(** [handleFileUpload] up to [reader.readAsDataURL(file)]. *)
Definition handleFileUpload (file : option File) (s : AppState) : AppState :=
  match file with
  | None => s
  | Some f =>
      if negb (startsWith (js "image/") (fileType f))
      then setError (Some "Please upload a valid image file."%string) s
      else setError None (setIsProcessing true s)
  end.

(** [result.items.map(item => ({ id: generateId(), ... }))]: the [i]-th
    call of [generateId] gives [gen i]. *)
Fixpoint withIds (gen : nat -> jsstring) (i : nat) (parsed : list LineItem)
  : list ReceiptItem :=
  match parsed with
  | [] => []
  | item :: rest =>
      mkReceiptItem (gen i) (name item) (price item) []
        :: withIds gen (S i) rest
  end.

(** The [onloadend] callback, given how [parseReceiptImage] settled; if
    it never does, the callback never resumes and the state stays as it
    is. *)
Definition onParsed (parsed : outcome ParseResult) (gen : nat -> jsstring)
           (s : AppState) : AppState :=
  match parsed with
  | Ok result =>
      let newItems := withIds gen 0 (Pipeline.items result) in
      let s1 :=
        if length newItems =? 0
        then setError (Some ("We couldn't detect any items automatically. "
                             ++ "You can add them manually in the next step.")
                         %string) s
        else s in
      setIsProcessing false (setStep Verification (setItems newItems s1))
  | Throw _ =>
      setIsProcessing false
        (setError (Some "Failed to read receipt text. Please try a clearer photo."
                    %string) s)
  | Hangs => s
  end.

(** The callback with the parser that the file imports,
    [./services/ocr]. *)
Definition onloadend (e : Engine) (base64String : jsstring)
           (gen : nat -> jsstring) (s : AppState) : AppState :=
  onParsed (fst (run (Legacy.parseReceiptImage e base64String))) gen s.

(** *** Step 3: verification *)

(** The [field] and [value] arguments of [handleUpdateItem], as its two
    call sites pair them. *)
Inductive FieldValue :=
| NameValue (v : jsstring)
| PriceValue (v : Number).

Definition handleUpdateItem (id : jsstring) (fv : FieldValue) (s : AppState)
  : AppState :=
  setItems
    (map (fun item =>
            if strEq (itemId item) id
            then match fv with
                 | NameValue v =>
                     mkReceiptItem (itemId item) v (itemPrice item)
                                   (assignedTo item)
                 | PriceValue v =>
                     mkReceiptItem (itemId item) (itemName item) v
                                   (assignedTo item)
                 end
            else item)
         (items s)) s.

(** [parsed || 0] on a number: NaN and the zeros are falsy. *)
Definition orZero (parsed : Number) : Number :=
  match parsed with
  | S754_nan | S754_zero _ => ofZ 0
  | _ => parsed
  end.

Definition handleDeleteItem (id : jsstring) (s : AppState) : AppState :=
  setItems (filter (fun i => negb (strEq (itemId i) id)) (items s)) s.

Definition handleAddItemManual (newId : jsstring) (s : AppState) : AppState :=
  setItems (items s ++ [mkReceiptItem newId (js "New Item") (ofZ 0) []]) s.

(** *** Step 4: assignment *)

(** [list.includes(x)] *)
Definition includes (x : jsstring) (l : list jsstring) : bool :=
  existsb (fun y => strEq y x) l.

Definition toggleAssignment (itemId0 memberId0 : jsstring) (s : AppState)
  : AppState :=
  setItems
    (map (fun item =>
            if negb (strEq (itemId item) itemId0) then item
            else
              let isAssigned := includes memberId0 (assignedTo item) in
              let newAssigned :=
                if isAssigned
                then filter (fun id => negb (strEq id memberId0))
                            (assignedTo item)
                else assignedTo item ++ [memberId0] in
              mkReceiptItem (itemId item) (itemName item) (itemPrice item)
                            newAssigned)
         (items s)) s.

Definition assignAllTo (memberId0 : jsstring) (s : AppState) : AppState :=
  setItems
    (map (fun item =>
            mkReceiptItem (itemId item) (itemName item) (itemPrice item)
              (if includes memberId0 (assignedTo item)
               then assignedTo item
               else assignedTo item ++ [memberId0]))
         (items s)) s.

(** *** Step 5: the summary *)

(** [Record<string, number>] *)
Definition SummaryObject := list (jsstring * Number).

(** [summary[k]], [None] for [undefined]. *)
Fixpoint objGet (k : jsstring) (o : SummaryObject) : option Number :=
  match o with
  | [] => None
  | (k', v) :: r => if strEq k' k then Some v else objGet k r
  end.

(** [summary[k] = v] *)
Fixpoint objSet (k : jsstring) (v : Number) (o : SummaryObject)
  : SummaryObject :=
  match o with
  | [] => [(k, v)]
  | (k', v') :: r =>
      if strEq k' k then (k', v) :: r else (k', v') :: objSet k v r
  end.

(** [if (summary[memberId] !== undefined) summary[memberId] += splitPrice] *)
Definition credit (splitPrice : Number) (summary : SummaryObject)
           (memberId0 : jsstring) : SummaryObject :=
  match objGet memberId0 summary with
  | Some v => objSet memberId0 (add v splitPrice) summary
  | None => summary
  end.

(** [item.price / item.assignedTo.length] *)
Definition splitPrice (item : ReceiptItem) : Number :=
  div (itemPrice item) (ofZ (Z.of_nat (length (assignedTo item)))).

(** The body of [items.forEach] on the pair of the two accumulators. *)
Definition summaryStep (acc : SummaryObject * Number) (item : ReceiptItem)
  : SummaryObject * Number :=
  let (summary, unassignedTotal) := acc in
  if length (assignedTo item) =? 0
  then (summary, add unassignedTotal (itemPrice item))
  else (fold_left (credit (splitPrice item)) (assignedTo item) summary,
        unassignedTotal).

Definition calculateSummary (s : AppState) : SummaryObject * Number :=
  let summary :=
    fold_left (fun o m => objSet (memberId m) (ofZ 0) o) (partyMembers s) [] in
  fold_left summaryStep (items s) (summary, ofZ 0).

(** [items.reduce((sum, i) => sum + i.price, 0)] *)
Definition totalSpent (s : AppState) : Number :=
  fold_left (fun sum i => add sum (itemPrice i)) (items s) (ofZ 0).

Definition resetApp (s : AppState) : AppState :=
  setError None (setItems [] (setStep PartyCreation s)).

(** *** The controls of each screen *)

(** What the user and the environment can do: one event per control of
    the five screens, and the completion of a pending read. *)
Inductive Event :=
| AddPerson (newId : jsstring)
| RemovePerson (id : jsstring)
| RenamePerson (id name : jsstring)
| SelectCurrency (c : jsstring)
| NextUploadReceipt
| ChooseFile (file : option File)
| ReadEnds (e : Engine) (base64String : jsstring) (gen : nat -> jsstring)
| BackToParty
| EditItemName (id v : jsstring)
| EditItemPrice (id : jsstring) (parsed : Number)
| DeleteItem (id : jsstring)
| AddMissingItem (newId : jsstring)
| Retake
| ConfirmItems
| TogglePerson (itemId0 memberId0 : jsstring)
| BackToVerification
| CalculateSplit
| EditAssignments
| StartOver.

Definition handle (ev : Event) (s : AppState) : AppState :=
  match ev with
  | AddPerson newId => handleAddMember newId s
  | RemovePerson id => handleRemoveMember id s
  | RenamePerson id name => handleMemberNameChange id name s
  | SelectCurrency c => setCurrency c s
  | NextUploadReceipt => validateParty s
  | ChooseFile file => handleFileUpload file s
  | ReadEnds e base64String gen => onloadend e base64String gen s
  | BackToParty => setStep PartyCreation s
  | EditItemName id v => handleUpdateItem id (NameValue v) s
  | EditItemPrice id parsed => handleUpdateItem id (PriceValue (orZero parsed)) s
  | DeleteItem id => handleDeleteItem id s
  | AddMissingItem newId => handleAddItemManual newId s
  | Retake => setStep ReceiptUpload s
  | ConfirmItems => setStep Assignment s
  | TogglePerson i m => toggleAssignment i m s
  | BackToVerification => setStep Verification s
  | CalculateSplit => setStep Summary s
  | EditAssignments => setStep Assignment s
  | StartOver => resetApp s
  end.

Definition memberIds (s : AppState) : list jsstring :=
  map memberId (partyMembers s).

Definition itemIds (s : AppState) : list jsstring := map itemId (items s).

(** The control exists on the screen that is rendered and is not
    disabled ([Button] and [Input] are taken to hand [disabled] and the
    handlers to the native elements); a read ends only while one is
    pending, which is while [isProcessing] holds, since the file input is
    disabled for that time. *)
Definition enabled (ev : Event) (s : AppState) : Prop :=
  match ev with
  | AddPerson _ | SelectCurrency _ => step s = PartyCreation
  | RemovePerson id =>
      step s = PartyCreation /\ 1 < length (partyMembers s)
      /\ In id (memberIds s)
  | RenamePerson id _ => step s = PartyCreation /\ In id (memberIds s)
  | NextUploadReceipt =>
      step s = PartyCreation
      /\ forallb (fun m => isBlank (memberName m)) (partyMembers s) = false
  | ChooseFile _ => step s = ReceiptUpload /\ isProcessing s = false
  | ReadEnds _ _ _ => isProcessing s = true
  | BackToParty => step s = ReceiptUpload
  | EditItemName id _ | EditItemPrice id _ | DeleteItem id =>
      step s = Verification /\ In id (itemIds s)
  | AddMissingItem _ | Retake | ConfirmItems => step s = Verification
  | TogglePerson i m =>
      step s = Assignment /\ In i (itemIds s) /\ In m (memberIds s)
  | BackToVerification | CalculateSplit => step s = Assignment
  | EditAssignments | StartOver => step s = Summary
  end.

(** The states that a session can be in. *)
Inductive reachable : AppState -> Prop :=
| reach_init id1 id2 : reachable (initialState id1 id2)
| reach_step s ev : reachable s -> enabled ev s -> reachable (handle ev s).

(** The sessions in which [generateId] never repeats a member
    identifier. *)
Inductive reachableFresh : AppState -> Prop :=
| fresh_init id1 id2 : id1 <> id2 -> reachableFresh (initialState id1 id2)
| fresh_step s ev :
    reachableFresh s -> enabled ev s ->
    match ev with AddPerson i => ~ In i (memberIds s) | _ => True end ->
    reachableFresh (handle ev s).

(** The shares that [calculateSummary] adds to the entry [k], in the
    order in which it adds them. *)
Definition sharesOf (k : jsstring) (its : list ReceiptItem) : list Number :=
  flat_map (fun it => map (fun _ => splitPrice it)
                          (filter (fun a => strEq a k) (assignedTo it)))
           its.

(** *** What a session keeps *)

(** No identifier occurs twice among the assignees of an item. *)
Definition distinctAssignees (s : AppState) : Prop :=
  forall it, In it (items s) -> NoDup (assignedTo it).

(** Every assignee is a member of the party. *)
Definition assigneesAreMembers (s : AppState) : Prop :=
  forall it a, In it (items s) -> In a (assignedTo it) -> In a (memberIds s).

Definition pricesAreNumbers (s : AppState) : Prop :=
  forall it, In it (items s) -> isNaN (itemPrice it) = false.

Definition pastUpload (s : AppState) : Prop :=
  step s = Verification \/ step s = Assignment \/ step s = Summary.

Definition beforeVerification (s : AppState) : Prop :=
  step s = PartyCreation \/ step s = ReceiptUpload.

Definition sessionInvariant (s : AppState) : Prop :=
  distinctAssignees s
  /\ pricesAreNumbers s
  /\ (isProcessing s = true -> beforeVerification s)
  /\ (pastUpload s -> assigneesAreMembers s).

(** The message of [validateParty]. *)
Definition partyError : string := "Please add at least one person.".

Definition messageInvariant (s : AppState) : Prop :=
  error s <> Some partyError
  /\ (isProcessing s = true -> error s = None).

(** The members have distinct identifiers and there is at least one. *)
Definition wellFormedParty (s : AppState) : Prop :=
  NoDup (memberIds s) /\ partyMembers s <> [].

(** How a press on the button of member [m] under item [i] changes one
    item: only the items with that identifier change, and in them only
    whether [m] is an assignee. *)
Definition toggledItem (i m : jsstring) (it it' : ReceiptItem) : Prop :=
  itemId it' = itemId it /\ itemName it' = itemName it
  /\ itemPrice it' = itemPrice it
  /\ if strEq (itemId it) i
     then forall k, includes k (assignedTo it')
                    = if strEq k m then negb (includes m (assignedTo it))
                      else includes k (assignedTo it)
     else assignedTo it' = assignedTo it.

(** The same item up to the order of its assignees. *)
Definition sameAssignment (it it' : ReceiptItem) : Prop :=
  itemId it' = itemId it /\ itemName it' = itemName it
  /\ itemPrice it' = itemPrice it
  /\ Permutation (assignedTo it) (assignedTo it').

(** A read is pending on the upload screen; the user goes back, adds a
    person with identifier [i], and the read ends. *)
Definition addedWhileReading (e : Engine) (base64String : jsstring)
           (gen : nat -> jsstring) (i : jsstring) (s : AppState) : AppState :=
  handle (ReadEnds e base64String gen)
         (handle (AddPerson i) (handle BackToParty s)).

(** The items of which [k] is an assignee. *)
Definition itemsOf (k : jsstring) (its : list ReceiptItem)
  : list ReceiptItem :=
  filter (fun it => includes k (assignedTo it)) its.

End App.

(* ===================================================================== *)
(** ** The price token of the earlier revision *)
(* ===================================================================== *)

Module LegacyShapes.
Import JsString Regex JsNumber Extractor Shapes.

(** Thousands groups in which every group of three digits follows a dot
    or a comma. *)
Inductive sepGroups : jsstring -> Prop :=
| pg_nil : sepGroups []
| pg_cons s ds w :
    isDecimalSep s = true -> length ds = 3 -> allDigits ds ->
    sepGroups w -> sepGroups (s :: ds ++ w).

(** The price token that [Legacy.priceRegex] accepts. *)
Definition legacyPriceToken : jsstring -> Prop := tokenShape sepGroups.

End LegacyShapes.

(* ===================================================================== *)
(** ** A sample session *)
(* ===================================================================== *)

Module AppSamples.
Import JsString JsNumber Extractor Pipeline Samples App.

(** Two member identifiers as [generateId] builds them, and the
    identifiers [i0], [i1], ... for the items. *)
Definition ann : jsstring := js "k3f9a2x".
Definition ben : jsstring := js "p0q8w1z".
Definition itemIdOf (n : nat) : jsstring := js "i" ++ [(N.of_nat n + 48)%N].

Definition photo : File := mkFile (js "image/jpeg") sampleSource.

(** The second member is named, the party is confirmed and a photo is
    chosen: the read is pending. *)
Definition party : AppState :=
  handle (RenamePerson ben (js "Ben")) (initialState ann ben).
Definition reading : AppState :=
  handle (ChooseFile (Some photo)) (handle NextUploadReceipt party).

(** The engine reads the scenario text (two items for the earlier
    revision), the items are confirmed and the first is shared by both
    members. *)
Definition uploaded : AppState :=
  handle (ReadEnds (readingEngine receiptTextSpaced) sampleSource itemIdOf)
         reading.
Definition shared : AppState :=
  handle (TogglePerson (itemIdOf 0) ben)
         (handle (TogglePerson (itemIdOf 0) ann)
                 (handle ConfirmItems uploaded)).
Definition summarized : AppState := handle CalculateSplit shared.

End AppSamples.

(* ===================================================================== *)
(** ** Facts about the building blocks *)
(* ===================================================================== *)

Import JsString Regex JsNumber Extractor Normalizer Pipeline Shapes Samples.

(** Known values of the number model: 0.5 and 1.5 are exact, 0.1 is the
    double 0x1.999999999999ap-4, and a numeral with more digits than a
    double holds is rounded to the nearest one; [Math.round] breaks ties
    upwards and a [Uint8ClampedArray] breaks them to even and saturates. *)
Remark number_model_examples :
  decimal 5 1 = S754_finite false 4503599627370496 (-53)
  /\ decimal 15 1 = S754_finite false 6755399441055744 (-52)
  /\ decimal 1 1 = S754_finite false 7205759403792794 (-56)
  /\ decimal 999999999999999999999 17 = ofZ 10000
  /\ decimal 1050 2 = decimal 105 1
  /\ round (decimal 25 1) = 3%Z
  /\ round (SFopp (decimal 25 1)) = (-2)%Z
  /\ round (decimal 112549 2) = 1125%Z
  /\ toUint8Clamp (decimal 1005 1) = 100%Z
  /\ toUint8Clamp (decimal 1015 1) = 102%Z
  /\ toUint8Clamp (ofZ 300) = 255%Z
  /\ toUint8Clamp NaN = 0%Z.
Proof. repeat apply conj; vm_compute; reflexivity. Qed.

Section StringFacts.

Lemma trimStart_split (s : jsstring) :
  exists lead, s = lead ++ trimStart s /\ allWhite lead.
Proof.
  induction s as [|c r [lead [E W]]]; simpl.
  - exists []. split; [reflexivity | constructor].
  - destruct (isWhiteSpace c) eqn:Hc.
    + exists (c :: lead). split.
      * simpl. now rewrite <- E.
      * now constructor.
    + exists []. split; [reflexivity | constructor].
Qed.

Lemma allWhite_rev (w : jsstring) : allWhite w -> allWhite (rev w).
Proof. unfold allWhite. intros H. now apply Forall_rev. Qed.

Lemma trimEnd_split (s : jsstring) :
  exists trail, s = trimEnd s ++ trail /\ allWhite trail.
Proof.
  unfold trimEnd. destruct (trimStart_split (rev s)) as [lead [E W]].
  exists (rev lead). split.
  - rewrite <- rev_app_distr, <- E. now rewrite rev_involutive.
  - now apply allWhite_rev.
Qed.

(** A line is its trimmed form between two runs of white space. *)
Lemma trim_split (s : jsstring) :
  exists lead trail,
    s = lead ++ trim s ++ trail /\ allWhite lead /\ allWhite trail.
Proof.
  destruct (trimStart_split s) as [lead [E1 W1]].
  destruct (trimEnd_split (trimStart s)) as [trail [E2 W2]].
  exists lead, trail. unfold trim. now rewrite <- E2.
Qed.

(** Trimming at the start keeps an occurrence that begins with a unit
    that is not white space. *)
Lemma trimStart_keeps (pre post : jsstring) (c : codeunit) :
  isWhiteSpace c = false ->
  exists pre', trimStart (pre ++ c :: post) = pre' ++ c :: post.
Proof.
  intros Hc. induction pre as [|x pre IH]; simpl.
  - rewrite Hc. now exists [].
  - destruct (isWhiteSpace x).
    + exact IH.
    + now exists (x :: pre).
Qed.

Lemma trimEnd_keeps (pre post : jsstring) (c : codeunit) :
  isWhiteSpace c = false ->
  exists post', trimEnd (pre ++ c :: post) = pre ++ c :: post'.
Proof.
  intros Hc. unfold trimEnd.
  rewrite rev_app_distr. simpl. rewrite <- app_assoc. simpl.
  destruct (trimStart_keeps (rev post) (rev pre) c Hc) as [p' E].
  rewrite E. exists (rev p').
  rewrite rev_app_distr. simpl. rewrite rev_involutive.
  now rewrite <- app_assoc.
Qed.

End StringFacts.

Section RegexFacts.

Lemma accepts_weaken (m : matcher) (L L' : jsstring -> Prop) :
  accepts m L -> (forall w, L w -> L' w) -> accepts m L'.
Proof.
  intros Hm HL st st' Hin.
  destruct (Hm st st' Hin) as [w [E [P [C Lw]]]].
  exists w. auto.
Qed.

Lemma accepts_chr (p : codeunit -> bool) :
  accepts (chr p) (fun w => exists c, w = [c] /\ p c = true).
Proof.
  intros st st'. unfold chr.
  destruct (rest st) as [|c r] eqn:Er; [intros [] |].
  destruct (p c) eqn:Hp; [| intros []].
  intros [<- | []]. exists [c]. simpl.
  repeat split; try lia; eauto.
Qed.

Lemma accepts_eps : accepts eps (fun w => w = []).
Proof.
  intros st st' [<- | []]. exists []. simpl. repeat split; lia.
Qed.

Lemma accepts_seq (m1 m2 : matcher) (L1 L2 : jsstring -> Prop) :
  accepts m1 L1 -> accepts m2 L2 ->
  accepts (seq m1 m2)
          (fun w => exists w1 w2, w = w1 ++ w2 /\ L1 w1 /\ L2 w2).
Proof.
  intros H1 H2 st st'' Hin. unfold seq in Hin.
  apply in_flat_map in Hin. destruct Hin as [st' [Hin1 Hin2]].
  destruct (H1 _ _ Hin1) as [w1 [E1 [P1 [C1 L1w]]]].
  destruct (H2 _ _ Hin2) as [w2 [E2 [P2 [C2 L2w]]]].
  exists (w1 ++ w2). repeat split.
  - rewrite E1, E2. now rewrite app_assoc.
  - rewrite P2, P1, length_app. lia.
  - congruence.
  - eauto.
Qed.

Lemma progress_incl (m : matcher) (st st' : state) :
  In st' (progress m st) -> In st' (m st).
Proof. unfold progress. intros H. now apply filter_In in H. Qed.

Lemma accepts_times_chr (p : codeunit -> bool) (n : nat) :
  accepts (times n (chr p)) (fun w => length w = n /\ unitsOf p w).
Proof.
  induction n as [|n IH]; simpl.
  - eapply accepts_weaken; [apply accepts_eps |].
    intros w ->. split; [reflexivity | constructor].
  - eapply accepts_weaken; [apply (accepts_seq _ _ _ _ (accepts_chr p) IH) |].
    intros w [w1 [w2 [-> [[c [-> Hc]] [Hl Hu]]]]]. simpl.
    split; [now rewrite Hl | now constructor].
Qed.

Lemma accepts_upto_chr (p : codeunit -> bool) (n : nat) :
  accepts (upto n (chr p)) (fun w => length w <= n /\ unitsOf p w).
Proof.
  induction n as [|n IH]; intros st st' Hin; simpl in Hin.
  - destruct Hin as [<- | []]. exists []. simpl.
    repeat split; try lia. constructor.
  - apply in_app_or in Hin. destruct Hin as [Hin | [<- | []]].
    + apply in_flat_map in Hin. destruct Hin as [st1 [Hin1 Hin2]].
      apply progress_incl in Hin1.
      destruct (accepts_chr p _ _ Hin1) as [w1 [E1 [P1 [C1 [c [-> Hc]]]]]].
      destruct (IH _ _ Hin2) as [w2 [E2 [P2 [C2 [Hl Hu]]]]].
      exists (c :: w2). simpl. repeat split.
      * rewrite E1, E2. reflexivity.
      * rewrite P2, P1. simpl. lia.
      * congruence.
      * lia.
      * now constructor.
    + exists []. simpl. repeat split; try lia. constructor.
Qed.

Lemma accepts_star_fuel (m : matcher) (L : jsstring -> Prop) (fuel : nat) :
  accepts m L -> accepts (star_fuel fuel m) (iterated L).
Proof.
  intros Hm. induction fuel as [|f IH]; intros st st' Hin; simpl in Hin.
  - destruct Hin as [<- | []]. exists []. simpl.
    repeat split; try lia. constructor.
  - apply in_app_or in Hin. destruct Hin as [Hin | [<- | []]].
    + apply in_flat_map in Hin. destruct Hin as [st1 [Hin1 Hin2]].
      apply progress_incl in Hin1.
      destruct (Hm _ _ Hin1) as [w1 [E1 [P1 [C1 L1]]]].
      destruct (IH _ _ Hin2) as [w2 [E2 [P2 [C2 L2]]]].
      exists (w1 ++ w2). repeat split.
      * rewrite E1, E2. now rewrite app_assoc.
      * rewrite P2, P1, length_app. lia.
      * congruence.
      * now constructor.
    + exists []. simpl. repeat split; try lia. constructor.
Qed.

Lemma accepts_star (m : matcher) (L : jsstring -> Prop) :
  accepts m L -> accepts (star m) (iterated L).
Proof.
  intros Hm st st' Hin. unfold star in Hin.
  exact (accepts_star_fuel m L _ Hm st st' Hin).
Qed.

Lemma accepts_lazy_star_fuel (m : matcher) (L : jsstring -> Prop)
      (fuel : nat) :
  accepts m L -> accepts (lazy_star_fuel fuel m) (iterated L).
Proof.
  intros Hm. induction fuel as [|f IH]; intros st st' Hin; simpl in Hin.
  - destruct Hin as [<- | []]. exists []. simpl.
    repeat split; try lia. constructor.
  - destruct Hin as [<- | Hin].
    + exists []. simpl. repeat split; try lia. constructor.
    + apply in_flat_map in Hin. destruct Hin as [st1 [Hin1 Hin2]].
      apply progress_incl in Hin1.
      destruct (Hm _ _ Hin1) as [w1 [E1 [P1 [C1 L1]]]].
      destruct (IH _ _ Hin2) as [w2 [E2 [P2 [C2 L2]]]].
      exists (w1 ++ w2). repeat split.
      * rewrite E1, E2. now rewrite app_assoc.
      * rewrite P2, P1, length_app. lia.
      * congruence.
      * now constructor.
Qed.

Lemma accepts_lazy_star (m : matcher) (L : jsstring -> Prop) :
  accepts m L -> accepts (lazy_star m) (iterated L).
Proof.
  intros Hm st st' Hin. unfold lazy_star in Hin.
  exact (accepts_lazy_star_fuel m L _ Hm st st' Hin).
Qed.

Lemma iterated_units (p : codeunit -> bool) (w : jsstring) :
  iterated (fun v => exists c, v = [c] /\ p c = true) w -> unitsOf p w.
Proof.
  induction 1 as [|w1 w2 [c [-> Hc]] _ IH]; [constructor |].
  simpl. now constructor.
Qed.

(** [(chr p)+] and [(chr p)+?] consume a non-empty run of the class;
    [(chr p)*] a possibly empty one. *)
Lemma accepts_plus_chr (p : codeunit -> bool) :
  accepts (plus (chr p)) (fun w => w <> [] /\ unitsOf p w).
Proof.
  eapply accepts_weaken;
    [apply (accepts_seq _ _ _ _ (accepts_chr p)
                        (accepts_star _ _ (accepts_chr p))) |].
  intros w [w1 [w2 [-> [[c [-> Hc]] Hit]]]]. simpl.
  split; [discriminate |]. constructor; [exact Hc |].
  now apply iterated_units.
Qed.

Lemma accepts_lazy_plus_chr (p : codeunit -> bool) :
  accepts (lazy_plus (chr p)) (fun w => w <> [] /\ unitsOf p w).
Proof.
  eapply accepts_weaken;
    [apply (accepts_seq _ _ _ _ (accepts_chr p)
                        (accepts_lazy_star _ _ (accepts_chr p))) |].
  intros w [w1 [w2 [-> [[c [-> Hc]] Hit]]]]. simpl.
  split; [discriminate |]. constructor; [exact Hc |].
  now apply iterated_units.
Qed.

Lemma accepts_star_chr (p : codeunit -> bool) :
  accepts (star (chr p)) (unitsOf p).
Proof.
  eapply accepts_weaken; [apply (accepts_star _ _ (accepts_chr p)) |].
  apply iterated_units.
Qed.

(** The state a capturing group leaves. *)
Lemma group_inv (i : nat) (m : matcher) (L : jsstring -> Prop)
      (st st' : state) :
  accepts m L -> In st' (group i m st) ->
  exists w, rest st = w ++ rest st'
            /\ pos st' = pos st + length w
            /\ caps st' = (i, w) :: caps st
            /\ L w.
Proof.
  intros Hm Hin. unfold group in Hin. apply in_map_iff in Hin.
  destruct Hin as [st1 [<- Hin]].
  destruct (Hm _ _ Hin) as [w [E [P [C Lw]]]].
  exists w. simpl. repeat split; auto.
  rewrite P, E, C.
  replace (pos st + length w - pos st) with (length w) by lia.
  rewrite firstn_app, Nat.sub_diag, firstn_all. simpl.
  now rewrite app_nil_r.
Qed.

(** What [exec] returns is a success of the matcher at the offset it
    reports, and nothing matched at the offsets before it. *)
Lemma exec_from_sound (m : matcher) (s : jsstring) :
  forall i j st,
    exec_from m i s = Some (j, st) ->
    exists k, j = i + k /\ k <= length s
              /\ In st (m (mkState j (skipn k s) [])).
Proof.
  induction s as [|c r IH]; intros i j st H; simpl in H.
  - destruct (m (mkState i [] [])) as [|st0 l] eqn:E; [discriminate |].
    inversion H; subst. exists 0. simpl. rewrite Nat.add_0_r, E.
    repeat split; auto. now left.
  - destruct (m (mkState i (c :: r) [])) as [|st0 l] eqn:E.
    + apply IH in H. destruct H as [k [-> [Hk Hin]]].
      exists (S k). simpl. repeat split; try lia.
      now replace (i + S k) with (S i + k) by lia.
    + inversion H; subst. exists 0. simpl. rewrite Nat.add_0_r, E.
      repeat split; try lia. now left.
Qed.

(** [exec] fails only if the matcher fails at every offset. *)
Lemma exec_from_none (m : matcher) (s : jsstring) :
  forall i, exec_from m i s = None ->
  forall pre suf, s = pre ++ suf ->
                  m (mkState (i + length pre) suf []) = [].
Proof.
  induction s as [|c r IH]; intros i H pre suf E; simpl in H.
  - destruct pre; [| discriminate]. simpl in E. subst suf.
    simpl. rewrite Nat.add_0_r.
    destruct (m (mkState i [] [])); [reflexivity | discriminate].
  - destruct (m (mkState i (c :: r) [])) as [|st0 l] eqn:E0;
      [| discriminate].
    destruct pre as [|x pre]; simpl in E.
    + subst suf. simpl. now rewrite Nat.add_0_r.
    + inversion E; subst. simpl.
      replace (i + S (length pre)) with (S i + length pre) by lia.
      now apply IH.
Qed.

End RegexFacts.


Section FuelFacts.

Lemma progress_shorter (m : matcher) (st st' : state) :
  In st' (progress m st) -> length (rest st') < length (rest st).
Proof.
  unfold progress, advanced. intros H. apply filter_In in H.
  destruct H as [_ H]. now apply Nat.ltb_lt in H.
Qed.

Lemma flat_map_agree {A B : Type} (f g : A -> list B) (l : list A) :
  (forall a, In a l -> f a = g a) -> flat_map f l = flat_map g l.
Proof.
  induction l as [|a l IH]; intros H; simpl; [reflexivity |].
  rewrite (H a) by now left.
  rewrite IH; [reflexivity |]. intros x Hx. apply H. now right.
Qed.

(** The result of [m*] does not depend on the fuel once it covers the
    remaining input: the iteration is never cut short. *)
Lemma star_fuel_enough (m : matcher) :
  forall n1 n2 st,
    length (rest st) <= n1 -> length (rest st) <= n2 ->
    star_fuel n1 m st = star_fuel n2 m st.
Proof.
  induction n1 as [|n1 IH]; intros n2 st H1 H2.
  - destruct n2 as [|n2]; [reflexivity |]. simpl.
    destruct (progress m st) as [|st' l] eqn:E; [reflexivity |].
    assert (Hin : In st' (progress m st)) by (rewrite E; now left).
    apply progress_shorter in Hin. lia.
  - destruct n2 as [|n2]; simpl.
    + destruct (progress m st) as [|st' l] eqn:E; [reflexivity |].
      assert (Hin : In st' (progress m st)) by (rewrite E; now left).
      apply progress_shorter in Hin. lia.
    + f_equal. apply flat_map_agree. intros st' Hin.
      apply progress_shorter in Hin. apply IH; lia.
Qed.

(** The equation of [m*]: one more iteration first, leaving last. *)
Lemma star_unfold (m : matcher) (st : state) :
  star m st = flat_map (star m) (progress m st) ++ [st].
Proof.
  unfold star. destruct (length (rest st)) as [|n] eqn:E.
  - simpl. destruct (progress m st) as [|st' l] eqn:Ep; [reflexivity |].
    assert (Hin : In st' (progress m st)) by (rewrite Ep; now left).
    apply progress_shorter in Hin. lia.
  - simpl. f_equal. apply flat_map_agree. intros st' Hin.
    apply progress_shorter in Hin. apply star_fuel_enough; lia.
Qed.

Lemma lazy_star_fuel_enough (m : matcher) :
  forall n1 n2 st,
    length (rest st) <= n1 -> length (rest st) <= n2 ->
    lazy_star_fuel n1 m st = lazy_star_fuel n2 m st.
Proof.
  induction n1 as [|n1 IH]; intros n2 st H1 H2.
  - destruct n2 as [|n2]; [reflexivity |]. simpl.
    destruct (progress m st) as [|st' l] eqn:E; [reflexivity |].
    assert (Hin : In st' (progress m st)) by (rewrite E; now left).
    apply progress_shorter in Hin. lia.
  - destruct n2 as [|n2]; simpl.
    + destruct (progress m st) as [|st' l] eqn:E; [reflexivity |].
      assert (Hin : In st' (progress m st)) by (rewrite E; now left).
      apply progress_shorter in Hin. lia.
    + f_equal. apply flat_map_agree. intros st' Hin.
      apply progress_shorter in Hin. apply IH; lia.
Qed.

(** The equation of [m*?]: leaving first, one more iteration last. *)
Lemma lazy_star_unfold (m : matcher) (st : state) :
  lazy_star m st = st :: flat_map (lazy_star m) (progress m st).
Proof.
  unfold lazy_star. destruct (length (rest st)) as [|n] eqn:E.
  - simpl. destruct (progress m st) as [|st' l] eqn:Ep; [reflexivity |].
    assert (Hin : In st' (progress m st)) by (rewrite Ep; now left).
    apply progress_shorter in Hin. lia.
  - simpl. f_equal. apply flat_map_agree. intros st' Hin.
    apply progress_shorter in Hin. apply lazy_star_fuel_enough; lia.
Qed.

End FuelFacts.



Section PriceRegexFacts.

Lemma iterated_groups (w : jsstring) :
  iterated (fun v => exists sp ds, v = sp ++ ds
              /\ (length sp <= 1 /\ unitsOf isGroupSep sp)
              /\ (length ds = 3 /\ unitsOf isDigit ds)) w ->
  looseGroups w.
Proof.
  induction 1 as [|w1 w2 [sp [ds [-> [[Hl Hs] [Hd Hu]]]]] _ IH].
  - constructor.
  - rewrite <- app_assoc. destruct sp as [|s [|s' sp]]; simpl in *.
    + now apply lg_bare.
    + inversion Hs; subst. now apply lg_sep.
    + lia.
Qed.

(** Every success of [priceToken] consumed a token of the loose shape. *)
Lemma accepts_priceToken : accepts priceToken codePriceToken.
Proof.
  unfold priceToken, range.
  eapply accepts_weaken.
  - apply accepts_seq.
    + apply accepts_seq;
        [apply (accepts_times_chr isDigit 1)
        | apply (accepts_upto_chr isDigit (3 - 1))].
    + apply accepts_seq.
      * apply accepts_star. apply accepts_seq;
          [apply (accepts_upto_chr isGroupSep 1)
          | apply (accepts_times_chr isDigit 3)].
      * apply accepts_seq;
          [apply (accepts_chr isDecimalSep)
          | apply (accepts_times_chr isDigit 2)].
  - intros w [lead [w' [-> [Hlead [grp [w'' [-> [Hgrp Htail]]]]]]]].
    destruct Hlead as [l1 [l2 [-> [[Hl1 Hu1] [Hl2 Hu2]]]]].
    destruct Htail as [sp [cents [-> [[s [-> Hs]] [Hlc Huc]]]]].
    exists (l1 ++ l2), grp, s, cents. simpl in *.
    repeat split; auto.
    + rewrite length_app. lia.
    + rewrite length_app. lia.
    + apply Forall_app. split; assumption.
    + now apply iterated_groups.
Qed.

(** The anatomy of a success of [priceRegex] from the start of a line. *)
Lemma priceRegex_inv (s : jsstring) (st : state) :
  In st (priceRegex (mkState 0 s [])) ->
  exists nm ws tok ws',
    s = nm ++ ws ++ tok ++ ws'
    /\ caps st = [(2, tok); (1, nm)]
    /\ (nm <> [] /\ unitsOf anyUnit nm)
    /\ (ws <> [] /\ allWhite ws)
    /\ codePriceToken tok
    /\ allWhite ws'.
Proof.
  unfold priceRegex, seq. intros H.
  apply in_flat_map in H. destruct H as [s0 [H0 H]].
  simpl in H0. destruct H0 as [<- | []].
  apply in_flat_map in H. destruct H as [s1 [H1 H]].
  apply in_flat_map in H. destruct H as [s2 [H2 H]].
  apply in_flat_map in H. destruct H as [s3 [H3 H]].
  apply in_flat_map in H. destruct H as [s4 [H4 H]].
  destruct (group_inv 1 _ _ _ _ (accepts_lazy_plus_chr anyUnit) H1)
    as [nm [E1 [_ [C1 Hnm]]]].
  destruct (accepts_plus_chr isWhiteSpace _ _ H2)
    as [ws [E2 [_ [C2 Hws]]]].
  destruct (group_inv 2 _ _ _ _ accepts_priceToken H3)
    as [tok [E3 [_ [C3 Htok]]]].
  destruct (accepts_star_chr isWhiteSpace _ _ H4)
    as [ws' [E4 [_ [C4 Hws']]]].
  unfold eol in H. destruct (rest s4) eqn:E5; [| destruct H].
  destruct H as [<- | []].
  exists nm, ws, tok, ws'. simpl in *.
  repeat split; try tauto.
  - rewrite E1, E2, E3, E4. now rewrite app_nil_r.
  - rewrite C4, C3, C2, C1. reflexivity.
Qed.

(** [priceRegex] is anchored: it fails at every offset but 0. *)
Lemma priceRegex_anchored (i : nat) (s : jsstring) :
  priceRegex (mkState (S i) s []) = [].
Proof. reflexivity. Qed.

(** The two captures of a match, and what surrounds them. *)
Lemma matchPrice_inv (s nm tok : jsstring) :
  matchPrice s = Some (nm, tok) ->
  exists ws ws',
    s = nm ++ ws ++ tok ++ ws'
    /\ (nm <> [] /\ unitsOf anyUnit nm)
    /\ (ws <> [] /\ allWhite ws)
    /\ codePriceToken tok
    /\ allWhite ws'.
Proof.
  unfold matchPrice, exec. intros H.
  destruct (exec_from priceRegex 0 s) as [[j st]|] eqn:E; [| discriminate].
  apply exec_from_sound in E. destruct E as [k [-> [_ Hin]]].
  destruct k as [|k];
    [| change (0 + S k) with (S k) in Hin;
       rewrite priceRegex_anchored in Hin; destruct Hin].
  simpl in Hin. apply priceRegex_inv in Hin.
  destruct Hin as [nm' [ws [tok' [ws' [E [C [Hn [Hw [Ht Hw']]]]]]]]].
  rewrite C in H. simpl in H. inversion H; subst.
  exists ws, ws'. tauto.
Qed.

Lemma parseLine_inv (line : jsstring) (item : LineItem) :
  parseLine line = Some item ->
  test keywordRegex (trim line) = false
  /\ 5 <= length (trim line)
  /\ exists nm tok,
      matchPrice (trim line) = Some (nm, tok)
      /\ item = mkItem (cleanName nm) (parseFloat (normalizePrice tok))
      /\ sanityCheck (cleanName nm) (parseFloat (normalizePrice tok)) = true.
Proof.
  unfold parseLine. intros H.
  destruct (test keywordRegex (trim line)); [discriminate |].
  destruct (length (trim line) <? 5) eqn:El; [discriminate |].
  apply Nat.ltb_ge in El.
  destruct (matchPrice (trim line)) as [[nm tok]|]; [| discriminate].
  destruct (sanityCheck _ _) eqn:Es; [| discriminate].
  inversion H; subst. repeat split; auto.
  exists nm, tok. auto.
Qed.

End PriceRegexFacts.


Section PriceStringFacts.

Lemma groupSep_cases (c : codeunit) :
  isGroupSep c = true -> isWhiteSpace c = false -> priceUnit c = true.
Proof.
  unfold isGroupSep, priceUnit, dot, comma. intros H Hw. rewrite Hw in H.
  rewrite orb_false_r in H. rewrite <- orb_assoc. rewrite H.
  apply orb_true_r.
Qed.

Lemma digits_survive (w : jsstring) :
  allDigits w ->
  Forall (fun c => priceUnit c = true) (removeAll isWhiteSpace w).
Proof.
  unfold removeAll. induction 1 as [|c w Hc _ IH]; simpl; [constructor |].
  destruct (isWhiteSpace c); simpl; [exact IH |].
  constructor; [| exact IH]. unfold priceUnit. now rewrite Hc.
Qed.

Lemma removeAll_app (p : codeunit -> bool) (a b : jsstring) :
  removeAll p (a ++ b) = removeAll p a ++ removeAll p b.
Proof. unfold removeAll. apply filter_app. Qed.

Lemma sep_survives (s : codeunit) :
  isGroupSep s = true ->
  Forall (fun c => priceUnit c = true) (removeAll isWhiteSpace [s]).
Proof.
  intros Hs. unfold removeAll. simpl.
  destruct (isWhiteSpace s) eqn:Hw; simpl; [constructor |].
  constructor; [| constructor]. now apply groupSep_cases.
Qed.

Lemma groups_survive (w : jsstring) :
  looseGroups w ->
  Forall (fun c => priceUnit c = true) (removeAll isWhiteSpace w).
Proof.
  induction 1 as [| s ds w Hs _ Hd _ IH | ds w _ Hd _ IH].
  - constructor.
  - change (s :: ds ++ w) with ([s] ++ ds ++ w).
    rewrite !removeAll_app. repeat (apply Forall_app; split); auto.
    + now apply sep_survives.
    + now apply digits_survive.
  - rewrite removeAll_app. apply Forall_app. split; auto.
    now apply digits_survive.
Qed.

Lemma replaceFirstUnit_units (P : codeunit -> Prop) (c d : codeunit)
      (w : jsstring) :
  P d -> Forall P w -> Forall P (replaceFirstUnit c d w).
Proof.
  intros Hd. induction 1 as [|x w Hx Hw IH]; simpl; [constructor |].
  destruct (x =? c)%N; constructor; auto.
Qed.

Lemma removeAll_units (P : codeunit -> Prop) (p : codeunit -> bool)
      (w : jsstring) :
  Forall P w -> Forall P (removeAll p w).
Proof.
  unfold removeAll. induction 1 as [|x w Hx Hw IH]; simpl; [constructor |].
  destruct (p x); simpl; auto.
Qed.

(** The string handed to [parseFloat] is made of digits, dots and
    commas: the fragment of [parseFloat] that is modelled covers it. *)
Lemma priceStr_units (tok : jsstring) :
  codePriceToken tok ->
  Forall (fun c => priceUnit c = true) (normalizePrice tok).
Proof.
  intros [lead [grp [s [cents [-> [_ [Hl [Hg [Hs [_ Hc]]]]]]]]]].
  assert (H : Forall (fun c => priceUnit c = true)
                     (removeAll isWhiteSpace (lead ++ grp ++ s :: cents))).
  { change (s :: cents) with ([s] ++ cents).
    rewrite !removeAll_app. repeat (apply Forall_app; split).
    - now apply digits_survive.
    - now apply groups_survive.
    - apply sep_survives. unfold isGroupSep, isDecimalSep in *.
      now rewrite Hs.
    - now apply digits_survive. }
  unfold normalizePrice.
  destruct (Z.gtb _ _).
  - apply replaceFirstUnit_units; [reflexivity |].
    now apply removeAll_units.
  - now apply removeAll_units.
Qed.

End PriceStringFacts.


Section KeywordFacts.

Lemma trim_keeps_word (pre mid post : jsstring) :
  mid <> [] ->
  Forall (fun c => isWhiteSpace c = false) mid ->
  exists pre' post', trim (pre ++ mid ++ post) = pre' ++ mid ++ post'.
Proof.
  intros Hne Hmid. unfold trim.
  destruct mid as [|c m']; [congruence |].
  assert (Hc : isWhiteSpace c = false) by now inversion Hmid.
  destruct (trimStart_keeps pre (m' ++ post) c Hc) as [pre' E].
  simpl. rewrite E.
  destruct (exists_last (l := c :: m')) as [ini [l El]]; [discriminate |].
  assert (Hl : isWhiteSpace l = false).
  { rewrite El in Hmid. apply Forall_app in Hmid.
    destruct Hmid as [_ Hl]. now inversion Hl. }
  change (c :: m' ++ post) with ((c :: m') ++ post). rewrite El.
  replace (pre' ++ (ini ++ [l]) ++ post) with ((pre' ++ ini) ++ l :: post)
    by (rewrite <- !app_assoc; reflexivity).
  destruct (trimEnd_keeps (pre' ++ ini) post l Hl) as [post' E'].
  rewrite E'. exists pre', post'.
  change (c :: m' ++ post') with ((c :: m') ++ post'). rewrite El.
  rewrite <- !app_assoc. reflexivity.
Qed.

Lemma letter_not_white (c : codeunit) :
  (65 <= c <= 122)%N -> isWhiteSpace c = false.
Proof.
  intros H. unfold isWhiteSpace.
  repeat (apply orb_false_intro);
    try (apply N.eqb_neq; lia);
    apply andb_false_iff;
    [right | left]; apply N.leb_gt; lia.
Qed.

Lemma keywords_lower (kw : jsstring) :
  In kw keywords -> kw <> [] /\ Forall (fun k => isLower k = true) kw.
Proof.
  intros H. unfold keywords in H. simpl in H.
  repeat (destruct H as [<- | H]);
    try (split; [discriminate | repeat constructor]).
  destruct H.
Qed.

Lemma sameLetters_not_white (kw mid : jsstring) :
  Forall (fun k => isLower k = true) kw -> sameLetters kw mid ->
  Forall (fun c => isWhiteSpace c = false) mid.
Proof.
  intros Hl Hs. induction Hs as [|k c kw' mid' Hkc _ IH];
    [constructor |].
  inversion Hl as [|? ? Hk Hl']; subst.
  constructor; [| now apply IH].
  apply letter_not_white. unfold isLower in Hk.
  apply andb_prop in Hk. destruct Hk as [H1 H2].
  apply N.leb_le in H1, H2. destruct Hkc; subst; lia.
Qed.

Lemma eqb_ci_letter (k c : codeunit) :
  isLower k = true -> c = k \/ c = (k - 32)%N -> eqb_ci k c = true.
Proof.
  intros Hk Hc. unfold eqb_ci, canonicalize. rewrite Hk.
  destruct Hc as [-> | ->].
  - rewrite Hk. apply N.eqb_refl.
  - unfold isLower in *. apply andb_prop in Hk. destruct Hk as [H1 H2].
    apply N.leb_le in H1, H2.
    replace (97 <=? k - 32)%N with false
      by (symmetry; apply N.leb_gt; lia).
    simpl. apply N.eqb_refl.
Qed.

(** A literal under [eqb_ci] matches its keyword in any mix of cases. *)
Lemma lit_ci_matches (kw mid : jsstring) :
  Forall (fun k => isLower k = true) kw -> sameLetters kw mid ->
  forall i post cs,
    lit eqb_ci kw (mkState i (mid ++ post) cs)
    = [mkState (i + length mid) post cs].
Proof.
  intros Hl Hs. induction Hs as [|k c kw' mid' Hkc _ IH]; intros i post cs.
  - simpl. unfold eps. now rewrite Nat.add_0_r.
  - inversion Hl as [|? ? Hk Hl']; subst.
    simpl. unfold seq, chr. simpl.
    rewrite (eqb_ci_letter k c Hk Hkc). simpl.
    rewrite (IH Hl'). rewrite app_nil_r.
    do 2 f_equal. lia.
Qed.

Lemma alts_nonempty (ms : list matcher) (m : matcher) (st : state) :
  In m ms -> m st <> [] -> alts ms st <> [].
Proof.
  induction ms as [|m0 ms IH]; intros Hin Hne; [destruct Hin |].
  simpl. unfold alt. destruct Hin as [-> | Hin].
  - destruct (m st); [congruence | discriminate].
  - intros E. apply app_eq_nil in E. destruct E as [_ E].
    now apply (IH Hin Hne).
Qed.

(** The keyword filter fires on every line that contains a keyword as a
    substring, whatever surrounds it. *)
Lemma keyword_test_substring (kw s : jsstring) :
  In kw keywords -> containsKeyword kw s -> test keywordRegex s = true.
Proof.
  intros Hin [pre [mid [post [-> Hs]]]].
  destruct (keywords_lower kw Hin) as [_ Hl].
  unfold test, exec.
  destruct (exec_from keywordRegex 0 (pre ++ mid ++ post)) eqn:E;
    [reflexivity |].
  exfalso.
  pose proof (exec_from_none keywordRegex _ 0 E pre (mid ++ post) eq_refl)
    as Hnone.
  revert Hnone. unfold keywordRegex.
  apply alts_nonempty with (m := lit eqb_ci kw).
  - now apply in_map.
  - rewrite (lit_ci_matches kw mid Hl Hs). discriminate.
Qed.

Lemma containsKeyword_trim (kw line : jsstring) :
  In kw keywords -> containsKeyword kw line ->
  containsKeyword kw (trim line).
Proof.
  intros Hin [pre [mid [post [-> Hs]]]].
  destruct (keywords_lower kw Hin) as [Hne Hl].
  assert (Hmid : mid <> []).
  { intros ->. apply Hne. now inversion Hs. }
  destruct (trim_keeps_word pre mid post Hmid
              (sameLetters_not_white kw mid Hl Hs)) as [pre' [post' E]].
  exists pre', mid, post'. split; assumption.
Qed.

Lemma filtered_line (line : jsstring) :
  test keywordRegex (trim line) = true -> parseLine line = None.
Proof. unfold parseLine. now intros ->. Qed.

End KeywordFacts.



Section SanityFacts.

Lemma sanityCheck_sane (nm : jsstring) (p : Number) :
  sanityCheck nm p = true -> sane (mkItem nm p).
Proof.
  unfold sanityCheck, sane. simpl. intros H.
  apply andb_prop in H. destruct H as [H H4].
  apply andb_prop in H. destruct H as [H H3].
  apply andb_prop in H. destruct H as [H1 H2].
  apply Nat.ltb_lt in H1. apply negb_true_iff in H2. auto.
Qed.

Lemma parseLine_sane (line : jsstring) (item : LineItem) :
  parseLine line = Some item -> sane item.
Proof.
  intros H. apply parseLine_inv in H.
  destruct H as [_ [_ [nm [tok [_ [-> Hs]]]]]].
  now apply sanityCheck_sane.
Qed.

(** [items.push] is reached with a sane candidate only. *)
Lemma processLine_sane (items : list LineItem) (line : jsstring) :
  Forall sane items -> Forall sane (processLine items line).
Proof.
  intros H. unfold processLine.
  destruct (parseLine line) as [it|] eqn:E; [| exact H].
  apply Forall_app. split; [exact H |].
  constructor; [| constructor]. now apply parseLine_sane with (line := line).
Qed.

Lemma loop_sane (lines : list jsstring) :
  forall items, Forall sane items ->
                Forall sane (fold_left processLine lines items).
Proof.
  induction lines as [|l ls IH]; intros items H; simpl; [exact H |].
  apply IH. now apply processLine_sane.
Qed.

(** The loop adds the contribution of each line, in line order. *)
Lemma loop_contributions (lines : list jsstring) :
  forall items,
    fold_left processLine lines items
    = items ++ flat_map contribution lines.
Proof.
  induction lines as [|l ls IH]; intros items; simpl.
  - now rewrite app_nil_r.
  - rewrite IH. unfold processLine, contribution.
    destruct (parseLine l); simpl.
    + now rewrite <- app_assoc.
    + reflexivity.
Qed.

Lemma extractItems_contributions (text : jsstring) :
  extractItems text = flat_map contribution (split_lf text).
Proof. unfold extractItems. now rewrite loop_contributions. Qed.

End SanityFacts.


Section PipelineFacts.

(** The run in which every step before the parse succeeds. *)
Lemma run_success (b : Browser) (e : Engine)
      (img processed text : jsstring) :
  preprocessImage b img = Resolved processed ->
  workerStarts e = true ->
  recognizedText e processed = Some text ->
  workerStops e = true ->
  run (parseReceiptImage b e img)
  = (Ok (mkResult (extractItems text)),
     [CreateWorker; Recognize processed; Terminate]
       ++ (if Nat.eqb (length (extractItems text)) 0
           then [ConsoleWarn (substring0 200 text)] else [])).
Proof.
  intros Hp Hs Hr Ht.
  unfold run, parseReceiptImage, tryCatch, bind, awaitPreprocess,
    createWorker, recognize, terminate, bind, emit, ret.
  rewrite Hp. simpl. rewrite Hs, Hr, Ht. simpl.
  destruct (Nat.eqb (length (extractItems text)) 0); reflexivity.
Qed.

End PipelineFacts.


Section NormalizerFacts.

Lemma writeUnit_length (data : list Z) (v : Number) :
  forall i, length (writeUnit data i v) = length data.
Proof.
  induction data as [|x r IH]; intros [|i]; simpl; auto.
Qed.

Lemma writeUnit_same (data : list Z) (v : Number) :
  forall i, i < length data ->
            nth_error (writeUnit data i v) i = Some (toUint8Clamp v).
Proof.
  induction data as [|x r IH]; intros [|i] H; simpl in *; try lia; auto.
  apply IH. lia.
Qed.

Lemma writeUnit_other (data : list Z) (v : Number) :
  forall i j, i <> j ->
              nth_error (writeUnit data i v) j = nth_error data j.
Proof.
  induction data as [|x r IH]; intros [|i] [|j] H; simpl; auto;
    try congruence.
Qed.

Lemma filterPixel_length (data : list Z) (i : nat) :
  length (filterPixel data i) = length data.
Proof. unfold filterPixel. now rewrite !writeUnit_length. Qed.

Lemma filterPixel_other (data : list Z) (i j : nat) :
  j <> i -> j <> i + 1 -> j <> i + 2 ->
  nth_error (filterPixel data i) j = nth_error data j.
Proof.
  intros H0 H1 H2. unfold filterPixel.
  rewrite !writeUnit_other; auto.
Qed.

Lemma filterPixel_channel (data : list Z) (i t : nat) :
  t < 3 -> i + t < length data ->
  nth_error (filterPixel data i) (i + t)
  = Some (toUint8Clamp (contrast (grayAt data i))).
Proof.
  intros Ht Hl. unfold filterPixel, grayAt.
  set (gray := contrast _).
  destruct t as [|[|[|t]]]; try lia.
  - rewrite Nat.add_0_r.
    rewrite !writeUnit_other by lia.
    apply writeUnit_same. lia.
  - rewrite writeUnit_other by lia.
    apply writeUnit_same. rewrite writeUnit_length. lia.
  - apply writeUnit_same. rewrite !writeUnit_length. lia.
Qed.

Lemma filterFirst_succ (k : nat) (data : list Z) :
  filterFirst (S k) data = filterPixel (filterFirst k data) (4 * k).
Proof.
  unfold filterFirst. rewrite seq_S, map_app, fold_left_app. reflexivity.
Qed.

Lemma filterFirst_length (k : nat) (data : list Z) :
  length (filterFirst k data) = length data.
Proof.
  induction k as [|k IH]; [reflexivity |].
  now rewrite filterFirst_succ, filterPixel_length.
Qed.

Lemma readUnit_ext (d1 d2 : list Z) (i : nat) :
  nth_error d1 i = nth_error d2 i -> readUnit d1 i = readUnit d2 i.
Proof. unfold readUnit. now intros ->. Qed.

(** After [k] iterations the first [k] pixels are filtered and the rest
    of the data is as it was. *)
Lemma filterFirst_spec (data : list Z) (k : nat) :
  forall p t, t < 4 ->
    nth_error (filterFirst k data) (4 * p + t)
    = if (p <? k) && (t <? 3) && (4 * p + t <? length data)
      then Some (toUint8Clamp (contrast (grayAt data (4 * p))))
      else nth_error data (4 * p + t).
Proof.
  induction k as [|k IH]; intros p t Ht.
  - reflexivity.
  - rewrite filterFirst_succ.
    destruct (Nat.lt_trichotomy p k) as [Hlt | [-> | Hgt]].
    + rewrite filterPixel_other by lia.
      rewrite IH by assumption.
      replace (p <? S k) with true by (symmetry; apply Nat.ltb_lt; lia).
      replace (p <? k) with true by (symmetry; apply Nat.ltb_lt; lia).
      reflexivity.
    + replace (k <? S k) with true by (symmetry; apply Nat.ltb_lt; lia).
      cbn [andb].
      destruct (t <? 3) eqn:E3; cbn [andb].
      * apply Nat.ltb_lt in E3.
        destruct (4 * k + t <? length data) eqn:El.
        -- apply Nat.ltb_lt in El.
           rewrite filterPixel_channel
             by (rewrite ?filterFirst_length; assumption).
           assert (R : forall u, u < 3 ->
                         readUnit (filterFirst k data) (4 * k + u)
                         = readUnit data (4 * k + u)).
           { intros u Hu. apply readUnit_ext.
             rewrite (IH k u) by lia. now rewrite Nat.ltb_irrefl. }
           pose proof (R 0) as R0. rewrite Nat.add_0_r in R0.
           unfold grayAt.
           rewrite R0, (R 1), (R 2) by lia. reflexivity.
        -- apply Nat.ltb_ge in El.
           transitivity (@None Z).
           ++ apply nth_error_None. rewrite filterPixel_length,
                filterFirst_length. exact El.
           ++ symmetry. now apply nth_error_None.
      * apply Nat.ltb_ge in E3.
        rewrite filterPixel_other by lia.
        rewrite IH by assumption. now rewrite Nat.ltb_irrefl.
    + rewrite filterPixel_other by lia.
      rewrite IH by assumption.
      replace (p <? S k) with false by (symmetry; apply Nat.ltb_ge; lia).
      replace (p <? k) with false by (symmetry; apply Nat.ltb_ge; lia).
      reflexivity.
Qed.

Lemma filterData_filterFirst (data : list Z) :
  filterData data = filterFirst ((length data + 3) / 4) data.
Proof. reflexivity. Qed.

Lemma pixel_visited (len p t : nat) :
  4 * p + t < len -> p < (len + 3) / 4.
Proof.
  intros H. apply Nat.div_le_lower_bound with (b := 4) (q := S p); lia.
Qed.

(** The three colour units of every pixel carry the contrasted gray
    level, and the alpha unit is kept. *)
Lemma filterData_spec (data : list Z) (p : nat) :
  length (filterData data) = length data
  /\ (forall t, t < 3 -> 4 * p + t < length data ->
                nth_error (filterData data) (4 * p + t)
                = Some (toUint8Clamp (contrast (grayAt data (4 * p)))))
  /\ nth_error (filterData data) (4 * p + 3) = nth_error data (4 * p + 3).
Proof.
  rewrite filterData_filterFirst. repeat split.
  - apply filterFirst_length.
  - intros t Ht Hl. rewrite filterFirst_spec by lia.
    replace (p <? (length data + 3) / 4) with true
      by (symmetry; apply Nat.ltb_lt; now apply pixel_visited with (t := t)).
    replace (t <? 3) with true by (symmetry; now apply Nat.ltb_lt).
    replace (4 * p + t <? length data) with true
      by (symmetry; now apply Nat.ltb_lt).
    reflexivity.
  - rewrite filterFirst_spec by lia.
    now rewrite andb_false_r.
Qed.

Lemma contrast_cases (gray : Number) :
  (gtb gray (ofZ 120) = true /\ toUint8Clamp (contrast gray) = 255%Z)
  \/ (gtb gray (ofZ 120) = false /\ ltb gray (ofZ 80) = true
      /\ toUint8Clamp (contrast gray) = 0%Z)
  \/ (gtb gray (ofZ 120) = false /\ ltb gray (ofZ 80) = false
      /\ contrast gray = gray).
Proof.
  unfold contrast.
  destruct (gtb gray (ofZ 120)); [left; split; reflexivity |].
  destruct (ltb gray (ofZ 80)); [right; left | right; right];
    repeat split; reflexivity.
Qed.

Lemma targetSize_width (w h : Z) :
  fst (targetSize w h) = Z.min w MAX_WIDTH.
Proof.
  unfold targetSize. destruct (Z.gtb_spec w MAX_WIDTH); simpl; lia.
Qed.

End NormalizerFacts.


Section LocaleFacts.

Lemma succ_unless_negative (z : Z) :
  (0 <= z)%Z ->
  match z with
  | Z0 => Z.succ 0
  | Zpos p => Z.succ (Zpos p)
  | Zneg _ => (-1)%Z
  end = Z.succ z.
Proof. destruct z; lia. Qed.

Lemma indexOf_bounds (c : codeunit) (s : jsstring) :
  (-1 <= indexOf c s < Z.of_nat (length s))%Z.
Proof.
  induction s as [|d r IH]; simpl; [lia |].
  destruct (d =? c)%N; [lia |].
  destruct (indexOf c r); lia.
Qed.

Lemma indexOf_absent (c : codeunit) (s : jsstring) :
  Forall (fun x => (x =? c)%N = false) s -> indexOf c s = (-1)%Z.
Proof.
  induction 1 as [|d r Hd _ IH]; simpl; [reflexivity |].
  now rewrite Hd, IH.
Qed.

Lemma indexOf_first (c : codeunit) (a b : jsstring) :
  Forall (fun x => (x =? c)%N = false) a ->
  indexOf c (a ++ c :: b) = Z.of_nat (length a).
Proof.
  induction 1 as [|d r Hd _ IH].
  - simpl. now rewrite N.eqb_refl.
  - cbn [app indexOf]. rewrite Hd, IH.
    change (length (d :: r)) with (S (length r)). rewrite Nat2Z.inj_succ.
    apply succ_unless_negative. apply Nat2Z.is_nonneg.
Qed.

Lemma indexOf_app_bound (c : codeunit) (a b : jsstring) :
  Forall (fun x => (x =? c)%N = false) b ->
  (indexOf c (a ++ b) < Z.of_nat (length a))%Z.
Proof.
  intros Hb. induction a as [|d r IH]; simpl.
  - rewrite (indexOf_absent c b Hb). lia.
  - destruct (d =? c)%N; [lia |].
    destruct (indexOf c (r ++ b)); lia.
Qed.

Lemma digit_not_sep (x : codeunit) :
  isDigit x = true -> (x =? dot)%N = false /\ (x =? comma)%N = false
                      /\ isWhiteSpace x = false.
Proof.
  unfold isDigit, dot, comma. intros H. apply andb_prop in H.
  destruct H as [H1 H2]. apply N.leb_le in H1, H2.
  repeat split; try (apply N.eqb_neq; lia).
  unfold isWhiteSpace.
  repeat (apply orb_false_intro);
    try (apply N.eqb_neq; lia);
    apply andb_false_iff; [right | left]; apply N.leb_gt; lia.
Qed.

Lemma digits_removeAll (p : codeunit -> bool) (w : jsstring) :
  allDigits w -> (forall x, isDigit x = true -> p x = false) ->
  removeAll p w = w.
Proof.
  intros Hw Hp. unfold removeAll.
  induction Hw as [|x w Hx _ IH]; simpl; [reflexivity |].
  rewrite (Hp x Hx). simpl. now rewrite IH.
Qed.

Lemma digits_no_unit (c : codeunit) (w : jsstring) :
  isDigit c = false -> allDigits w -> Forall (fun x => (x =? c)%N = false) w.
Proof.
  intros Hc. induction 1 as [|x w Hx _ IH]; constructor; auto.
  destruct (N.eqb_spec x c); [congruence | reflexivity].
Qed.


Lemma removeAll_drop (p : codeunit -> bool) (x : codeunit) (w : jsstring) :
  p x = true -> removeAll p (x :: w) = removeAll p w.
Proof. intros H. unfold removeAll. simpl. now rewrite H. Qed.

Lemma removeAll_keep (p : codeunit -> bool) (x : codeunit) (w : jsstring) :
  p x = false -> removeAll p (x :: w) = x :: removeAll p w.
Proof. intros H. unfold removeAll. simpl. now rewrite H. Qed.

Lemma sep_cases (g : codeunit) :
  isDecimalSep g = true -> g = dot \/ g = comma.
Proof.
  unfold isDecimalSep, dot, comma. intros H. apply orb_prop in H.
  destruct H as [H | H]; apply N.eqb_eq in H; auto.
Qed.

Lemma sep_not_digit_white (g : codeunit) :
  isDecimalSep g = true -> isDigit g = false /\ isWhiteSpace g = false.
Proof.
  intros H. destruct (sep_cases g H) as [-> | ->]; split; reflexivity.
Qed.

Lemma uniformGroups_digits (g : codeunit) (grp digs : jsstring) :
  uniformGroups g grp digs -> allDigits digs.
Proof.
  induction 1; [constructor | |]; apply Forall_app; split; assumption.
Qed.

(** Without their white space, uniform groups hold digits and the unit
    [g] only, and dropping [g] leaves the digits. *)
Lemma uniformGroups_stripped (g : codeunit) (grp digs : jsstring) :
  isDecimalSep g = true ->
  uniformGroups g grp digs ->
  Forall (fun x => isDigit x = true \/ x = g) (removeAll isWhiteSpace grp)
  /\ removeAll (N.eqb g) (removeAll isWhiteSpace grp) = digs.
Proof.
  intros Hg. destruct (sep_not_digit_white g Hg) as [Hgd Hgw].
  assert (Hds : forall ds, allDigits ds ->
            removeAll isWhiteSpace ds = ds /\ removeAll (N.eqb g) ds = ds
            /\ Forall (fun x => isDigit x = true \/ x = g) ds).
  { intros ds Hd. repeat split.
    - apply digits_removeAll; [assumption |].
      intros x Hx. now destruct (digit_not_sep x Hx) as [_ [_ ?]].
    - apply digits_removeAll; [assumption |].
      intros x Hx. destruct (N.eqb_spec g x); [congruence | reflexivity].
    - unfold allDigits, unitsOf in Hd.
      eapply Forall_impl; [| exact Hd]. intros; now left. }
  induction 1 as [| s ds w dw Hs _ Hd _ [IH1 IH2] | ds w dw _ Hd _ [IH1 IH2]].
  - split; [constructor | reflexivity].
  - destruct (Hds ds Hd) as [E1 [E2 F]].
    destruct (isWhiteSpace s) eqn:Hw.
    + rewrite (removeAll_drop isWhiteSpace s _ Hw).
      rewrite removeAll_app, E1, removeAll_app, E2, IH2.
      split; [| reflexivity]. apply Forall_app. split; assumption.
    + destruct Hs as [-> | Hs]; [| congruence].
      rewrite (removeAll_keep isWhiteSpace g _ Hw).
      rewrite (removeAll_drop (N.eqb g) g _ (N.eqb_refl g)).
      rewrite removeAll_app, E1, removeAll_app, E2, IH2.
      split; [| reflexivity].
      constructor; [now right |]. apply Forall_app. split; assumption.
  - destruct (Hds ds Hd) as [E1 [E2 F]].
    rewrite removeAll_app, E1, removeAll_app, E2, IH2.
    split; [| reflexivity]. apply Forall_app. split; assumption.
Qed.

Lemma replaceFirstUnit_first (c d : codeunit) (a b : jsstring) :
  Forall (fun x => (x =? c)%N = false) a ->
  replaceFirstUnit c d (a ++ c :: b) = a ++ d :: b.
Proof.
  induction 1 as [|x r Hx _ IH]; simpl.
  - now rewrite N.eqb_refl.
  - now rewrite Hx, IH.
Qed.

Lemma span_digits (ds r : jsstring) :
  allDigits ds ->
  match r with [] => True | x :: _ => isDigit x = false end ->
  span isDigit (ds ++ r) = (ds, r).
Proof.
  intros Hd Hr. induction Hd as [|x ds Hx _ IH]; cbn [app span].
  - destruct r as [|y r]; [reflexivity |]. cbn [span]. now rewrite Hr.
  - now rewrite Hx, IH.
Qed.


Lemma isDigit_dot : isDigit dot = false.
Proof. reflexivity. Qed.

(** The normalised form of a token whose group separators are all [g]
    (or white space, or absent) and whose last separator is the other
    symbol [d]. *)
Lemma normalizePrice_uniform (g d : codeunit)
      (lead grp digs cents : jsstring) :
  isDecimalSep g = true -> isDecimalSep d = true -> g <> d ->
  allDigits lead -> uniformGroups g grp digs -> allDigits cents ->
  normalizePrice (lead ++ grp ++ d :: cents) = lead ++ digs ++ dot :: cents.
Proof.
  intros Hg Hd Hne Hl Hu Hc.
  destruct (sep_not_digit_white g Hg) as [Hgd Hgw].
  destruct (sep_not_digit_white d Hd) as [Hdd Hdw].
  destruct (uniformGroups_stripped g grp digs Hg Hu) as [F EG].
  pose proof (uniformGroups_digits g grp digs Hu) as Hdigs.
  set (G := removeAll isWhiteSpace grp) in *.
  assert (Ews : forall ds, allDigits ds -> removeAll isWhiteSpace ds = ds).
  { intros ds H. apply digits_removeAll; [assumption |].
    intros x Hx. now destruct (digit_not_sep x Hx) as [_ [_ ?]]. }
  assert (E0 : removeAll isWhiteSpace (lead ++ grp ++ d :: cents)
               = (lead ++ G) ++ d :: cents).
  { rewrite removeAll_app, (Ews lead Hl), removeAll_app.
    rewrite (removeAll_keep isWhiteSpace d cents Hdw), (Ews cents Hc).
    now rewrite <- app_assoc. }
  assert (NoD : Forall (fun x => (x =? d)%N = false) (lead ++ G)).
  { apply Forall_app. split.
    - now apply digits_no_unit.
    - eapply Forall_impl; [| exact F]. intros x [Hx | ->].
      + destruct (N.eqb_spec x d); [congruence | reflexivity].
      + now apply N.eqb_neq. }
  assert (NoG : Forall (fun x => (x =? g)%N = false) (d :: cents)).
  { constructor.
    - apply N.eqb_neq. congruence.
    - now apply digits_no_unit. }
  assert (Id : indexOf d ((lead ++ G) ++ d :: cents)
               = Z.of_nat (length (lead ++ G)))
    by now apply indexOf_first.
  assert (Ig : (indexOf g ((lead ++ G) ++ d :: cents)
                < Z.of_nat (length (lead ++ G)))%Z)
    by now apply indexOf_app_bound.
  assert (Ekeep : forall c ds, isDigit c = false -> allDigits ds ->
                    removeAll (N.eqb c) ds = ds).
  { intros c ds Hcd H. apply digits_removeAll; [assumption |].
    intros x Hx. destruct (N.eqb_spec c x); [congruence | reflexivity]. }
  unfold normalizePrice. rewrite E0.
  destruct (sep_cases g Hg) as [-> | ->];
    destruct (sep_cases d Hd) as [-> | ->]; try congruence.
  - (* groups with dots, decimal comma *)
    replace (Z.gtb (indexOf comma ((lead ++ G) ++ comma :: cents))
                   (indexOf dot ((lead ++ G) ++ comma :: cents)))
      with true by (symmetry; apply Z.gtb_lt; lia).
    rewrite <- app_assoc.
    rewrite removeAll_app, (Ekeep dot lead Hgd Hl), removeAll_app, EG.
    rewrite (removeAll_keep (N.eqb dot) comma cents eq_refl).
    rewrite (Ekeep dot cents Hgd Hc).
    rewrite app_assoc. rewrite replaceFirstUnit_first.
    + now rewrite <- app_assoc.
    + apply digits_no_unit; [reflexivity |].
      apply Forall_app. split; assumption.
  - (* groups with commas, decimal dot *)
    replace (Z.gtb (indexOf comma ((lead ++ G) ++ dot :: cents))
                   (indexOf dot ((lead ++ G) ++ dot :: cents)))
      with false by (symmetry; rewrite Z.gtb_ltb; apply Z.ltb_ge; lia).
    rewrite <- app_assoc.
    rewrite removeAll_app, (Ekeep comma lead Hgd Hl), removeAll_app, EG.
    rewrite (removeAll_keep (N.eqb comma) dot cents eq_refl).
    now rewrite (Ekeep comma cents Hgd Hc).
Qed.

Lemma parseFloat_decimal (ip fp : jsstring) :
  ip <> [] -> allDigits ip -> allDigits fp ->
  parseFloat (ip ++ dot :: fp)
  = decimal (digitsValue (ip ++ fp)) (length fp).
Proof.
  intros Hne Hi Hf. unfold parseFloat.
  assert (Et : trimStart (ip ++ dot :: fp) = ip ++ dot :: fp).
  { destruct ip as [|x ip]; [congruence |]. inversion Hi; subst.
    cbn [app trimStart].
    now destruct (digit_not_sep x H1) as [_ [_ ->]]. }
  rewrite Et, (span_digits ip (dot :: fp) Hi isDigit_dot).
  unfold dot at 1. cbv iota.
  replace (span isDigit fp) with (fp, @nil codeunit)
    by (rewrite <- (app_nil_r fp) at 2; symmetry;
        apply (span_digits fp [] Hf I)).
  destruct ip as [|x ip]; [congruence | reflexivity].
Qed.

End LocaleFacts.

(* ===================================================================== *)
(** ** The properties of the specification *)
(* ===================================================================== *)

(** *** Decimal-separator disambiguation *)

(** C1.  The normalisation compares the first occurrences of the comma and
    of the dot ([indexOf]), not the last ones.  The token [1,234.567,89] is
    accepted by [priceRegex] and its rightmost separator is the comma; the
    first comma nevertheless precedes the first dot, so the dot is kept as
    the decimal point and every comma is removed: the line yields the price
    1234.56789, and the last comma is not treated as the decimal
    separator. *)
Theorem C1_first_separator_decides :
  matchPrice (js "Coffee 1,234.567,89")
  = Some (js "Coffee", js "1,234.567,89")
  /\ Z.lt (lastIndexOf dot (js "1,234.567,89"))
          (lastIndexOf comma (js "1,234.567,89"))
  /\ Z.lt (indexOf comma (js "1,234.567,89"))
          (indexOf dot (js "1,234.567,89"))
  /\ normalizePrice (js "1,234.567,89") = js "1234.56789"
  /\ parseLine (js "Coffee 1,234.567,89")
     = Some (mkItem (js "Coffee") (decimal 123456789 5)).
Proof. repeat apply conj; vm_compute; reflexivity. Qed.

(** The four locale examples of the specification evaluate as it says:
    both [1.234,56] and [1,234.56] give 1234.56, [10,50] gives 10.5 and
    [10.00] gives 10. *)
Theorem locale_examples :
  parseLine (js "Coffee 1.234,56")
  = Some (mkItem (js "Coffee") (decimal 123456 2))
  /\ parseLine (js "Coffee 1,234.56")
     = Some (mkItem (js "Coffee") (decimal 123456 2))
  /\ parseLine (js "Coffee 10,50")
     = Some (mkItem (js "Coffee") (decimal 1050 2))
  /\ parseLine (js "Coffee 10.00")
     = Some (mkItem (js "Coffee") (decimal 1000 2)).
Proof. repeat apply conj; vm_compute; reflexivity. Qed.

(** For a price token of the two usual locales, whose thousands groups
    all use one of the two symbols (or white space, or nothing) and whose
    last separator is the other symbol, the last separator is read as the
    decimal point: the price is the number written by all the digits, with
    the digits after the last separator as its fraction. *)
Theorem uniform_token_value (g d : codeunit)
        (lead grp digs cents : jsstring) :
  isDecimalSep g = true -> isDecimalSep d = true -> g <> d ->
  lead <> [] -> allDigits lead -> uniformGroups g grp digs ->
  allDigits cents ->
  normalizePrice (lead ++ grp ++ d :: cents) = lead ++ digs ++ dot :: cents
  /\ parseFloat (normalizePrice (lead ++ grp ++ d :: cents))
     = decimal (digitsValue (lead ++ digs ++ cents)) (length cents).
Proof.
  intros Hg Hd Hne Hl0 Hl Hu Hc.
  rewrite (normalizePrice_uniform g d lead grp digs cents Hg Hd Hne Hl Hu Hc).
  split; [reflexivity |].
  rewrite app_assoc, parseFloat_decimal.
  - now rewrite <- app_assoc.
  - destruct lead; [congruence | discriminate].
  - apply Forall_app. split; [assumption |].
    now apply uniformGroups_digits with (g := g) (grp := grp).
  - assumption.
Qed.

(** The same at the token [12.345.678,90]. *)
Lemma uniform_token_witness :
  normalizePrice (js "12.345.678,90") = js "12345678.90"
  /\ parseFloat (normalizePrice (js "12.345.678,90"))
     = decimal 1234567890 2.
Proof.
  apply (uniform_token_value dot comma (js "12") (js ".345.678")
                             (js "345678") (js "90")); try reflexivity.
  - discriminate.
  - discriminate.
  - repeat constructor.
  - apply (ug_sep dot dot (js "345") (js ".678") (js "678"));
      [now left | reflexivity | repeat constructor |].
    apply (ug_sep dot dot (js "678") [] []);
      [now left | reflexivity | repeat constructor | constructor].
  - repeat constructor.
Defined.

(** *** The end-to-end scenario *)

(** C2 as the specification states it fails: the six lines split as
    expected, but the result is the single item Fries 5.50, not the
    two-item list. *)
Lemma C2_burger_line_has_no_match :
  split_lf receiptText
  = map js ["BURGER PLACE"; "Burger........10.00"; "Fries 5,50";
            "SUBTOTAL 15.50"; "TAX 1.50"; "TOTAL 17.00"]%string
  /\ extractItems receiptText = [fries]
  /\ extractItems receiptText <> [burger; fries].
Proof.
  repeat apply conj; try (vm_compute; reflexivity).
  vm_compute. discriminate.
Qed.

(** C2, as amended.  On the six lines of the scenario the extractor yields
    exactly [Fries 5.50]: the line [Burger........10.00] has no white space
    between the name and the price, so [priceRegex] does not match it; the
    header has no price; the three boilerplate lines are caught by the
    keyword filter.  With a space before the price the line is an item and
    its dot leaders are stripped: the result is then
    [Burger 10.00; Fries 5.50]. *)
Theorem C2_receipt_scenario :
  extractItems receiptText = [fries]
  /\ matchPrice (js "Burger........10.00") = None
  /\ matchPrice (js "BURGER PLACE") = None
  /\ test keywordRegex (js "SUBTOTAL 15.50") = true
  /\ test keywordRegex (js "TAX 1.50") = true
  /\ test keywordRegex (js "TOTAL 17.00") = true
  /\ extractItems receiptTextSpaced = [burger; fries].
Proof. repeat apply conj; vm_compute; reflexivity. Qed.

(** *** The shape of the price token *)

(** C3 as the specification states it fails: the line [Item 1234.56] yields an item although
    its price token [1234.56] has a group of three digits without a
    separator, which the shape of the specification excludes. *)
Lemma C3_bare_group_is_accepted :
  matchPrice (trim (js "Item 1234.56")) = Some (js "Item", js "1234.56")
  /\ parseLine (js "Item 1234.56")
     = Some (mkItem (js "Item") (decimal 123456 2))
  /\ ~ specPriceToken (js "1234.56").
Proof.
  repeat apply conj; try (vm_compute; reflexivity).
  intros [lead [grp [s [cents [E [[L1 L3] [_ [G [_ [Lc _]]]]]]]]]].
  assert (Hg : forall w, strictGroups w ->
                 w = [] \/ exists s0 r, w = s0 :: r /\ isGroupSep s0 = true).
  { intros w [|s0 ds w' Hs _ _ _]; [now left | right; eauto]. }
  destruct (Hg _ G) as [-> | [s0 [r [-> Hs0]]]];
    destruct lead as [|a [|b [|c [|d lead]]]]; simpl in L1, L3; try lia;
    simpl in E; injection E as; subst;
    try discriminate;
    destruct cents as [|x [|y [|z cents]]]; simpl in Lc; try discriminate.
Qed.

(** C3, as amended.  A line yields an item only if, between its leading
    and trailing white space, it is a non-empty name, a non-empty run of
    white space and a price token, and the token is made of 1 to 3 digits,
    zero or more groups of exactly 3 digits each preceded by at most one
    separator (dot, comma or white space), and a final dot or comma
    followed by exactly 2 digits. *)
Theorem C3_item_needs_price_token (line : jsstring) (item : LineItem) :
  parseLine line = Some item ->
  exists lead nm ws tok trail,
    line = lead ++ nm ++ ws ++ tok ++ trail
    /\ allWhite lead /\ nm <> [] /\ ws <> [] /\ allWhite ws /\ allWhite trail
    /\ matchPrice (trim line) = Some (nm, tok)
    /\ codePriceToken tok.
Proof.
  intros H. apply parseLine_inv in H.
  destruct H as [_ [_ [nm [tok [Hm _]]]]].
  destruct (matchPrice_inv _ _ _ Hm)
    as [ws [ws' [E [[Hn _] [[Hw Hw1] [Ht Hw']]]]]].
  destruct (trim_split line) as [lead [trail [El [Wl Wt]]]].
  exists lead, nm, ws, tok, (ws' ++ trail).
  repeat split; auto.
  - rewrite El at 1. rewrite E. now rewrite <- !app_assoc.
  - apply Forall_app. split; assumption.
Qed.

(** C3 at the indented line [  Fries 5,50 ]. *)
Lemma C3_witness :
  exists lead nm ws tok trail,
    js "  Fries 5,50 " = lead ++ nm ++ ws ++ tok ++ trail
    /\ allWhite lead /\ nm <> [] /\ ws <> [] /\ allWhite ws /\ allWhite trail
    /\ matchPrice (trim (js "  Fries 5,50 ")) = Some (nm, tok)
    /\ codePriceToken tok.
Proof.
  apply (C3_item_needs_price_token (js "  Fries 5,50 ") fries).
  vm_compute. reflexivity.
Defined.

(** *** The sanity predicate *)

(** C4.  Every item of the result, after the whole text and after any
    number of lines, satisfies the sanity predicate: a cleaned name longer
    than one unit and a price that is a number, above 0 and below 10000.
    At the boundaries: the price 10000 is rejected whatever the name, the
    price 9999.99 is accepted exactly when the name is longer than one unit,
    a name of one unit is rejected whatever the price, a name of two units
    is accepted; and so it is on whole lines. *)
Theorem C4_every_item_is_sane :
  (forall text, Forall sane (extractItems text))
  /\ (forall text n,
        Forall sane (fold_left processLine (firstn n (split_lf text)) []))
  /\ (forall nm, sanityCheck nm (ofZ 10000) = false)
  /\ (forall nm, sanityCheck nm (decimal 999999 2) = (1 <? length nm))
  /\ (forall c p, sanityCheck [c] p = false)
  /\ (forall c d, sanityCheck [c; d] (decimal 999999 2) = true)
  /\ parseLine (js "Ab 10000.00") = None
  /\ parseLine (js "Ab 9999.99")
     = Some (mkItem (js "Ab") (decimal 999999 2))
  /\ parseLine (js "A 9999.99") = None
  /\ parseLine (js "A* 9999.99") = None.
Proof.
  repeat apply conj.
  - intros text. unfold extractItems. apply loop_sane. constructor.
  - intros text n. apply loop_sane. constructor.
  - intros nm. unfold sanityCheck.
    replace (ltb (ofZ 10000) (ofZ 10000)) with false
      by (vm_compute; reflexivity).
    apply andb_false_r.
  - intros nm. unfold sanityCheck.
    replace (isNaN (decimal 999999 2)) with false
      by (vm_compute; reflexivity).
    replace (gtb (decimal 999999 2) (ofZ 0)) with true
      by (vm_compute; reflexivity).
    replace (ltb (decimal 999999 2) (ofZ 10000)) with true
      by (vm_compute; reflexivity).
    simpl. now rewrite !andb_true_r.
  - intros c p. reflexivity.
  - intros c d. vm_compute. reflexivity.
  - vm_compute. reflexivity.
  - vm_compute. reflexivity.
  - vm_compute. reflexivity.
  - vm_compute. reflexivity.
Qed.

(** *** The keyword filter *)

(** C5.  A line on which the keyword filter fires yields no item, whatever
    else it contains: the iteration leaves the result as it was, and the
    result of a text is the same with and without the line. *)
Theorem C5_keyword_filter_rejects (line : jsstring) :
  test keywordRegex (trim line) = true ->
  parseLine line = None
  /\ (forall items, processLine items line = items)
  /\ (forall before after,
        fold_left processLine (before ++ line :: after) []
        = fold_left processLine (before ++ after) []).
Proof.
  intros H. apply filtered_line in H. repeat apply conj.
  - exact H.
  - intros items. unfold processLine. now rewrite H.
  - intros before after. rewrite !loop_contributions, !flat_map_app.
    simpl. unfold contribution at 2. now rewrite H.
Qed.

(** C5 at the line [TOTAL 17.00]. *)
Lemma C5_witness :
  parseLine (js "TOTAL 17.00") = None
  /\ (forall items, processLine items (js "TOTAL 17.00") = items)
  /\ (forall before after,
        fold_left processLine (before ++ js "TOTAL 17.00" :: after) []
        = fold_left processLine (before ++ after) []).
Proof.
  apply (C5_keyword_filter_rejects (js "TOTAL 17.00")).
  vm_compute. reflexivity.
Defined.

(** The line of the witness has a price that the pattern matches and that
    would pass the sanity check: only the filter rejects it. *)
Remark total_line_is_price_shaped :
  matchPrice (js "TOTAL 17.00") = Some (js "TOTAL", js "17.00")
  /\ sanityCheck (cleanName (js "TOTAL"))
                 (parseFloat (normalizePrice (js "17.00"))) = true.
Proof. split; vm_compute; reflexivity. Qed.

(** C10.  The filter looks for its keywords anywhere in the line: a line
    that contains a keyword as a substring, in any mix of upper and lower
    case and whatever surrounds it, fires the filter and yields no item. *)
Theorem C10_keyword_matches_inside_words (kw line : jsstring) :
  In kw keywords -> containsKeyword kw line ->
  test keywordRegex (trim line) = true
  /\ parseLine line = None
  /\ forall items, processLine items line = items.
Proof.
  intros Hin Hc.
  assert (Ht : test keywordRegex (trim line) = true).
  { apply keyword_test_substring with (kw := kw); [assumption |].
    now apply containsKeyword_trim. }
  split; [exact Ht |].
  apply filtered_line in Ht. unfold processLine. rewrite Ht. auto.
Qed.

(** C10 at the line [Taxi 4.50], which contains [tax] as [Tax]. *)
Lemma C10_witness :
  test keywordRegex (trim (js "Taxi 4.50")) = true
  /\ parseLine (js "Taxi 4.50") = None
  /\ forall items, processLine items (js "Taxi 4.50") = items.
Proof.
  apply (C10_keyword_matches_inside_words (js "tax") (js "Taxi 4.50")).
  - vm_compute. tauto.
  - exists [], (js "Tax"), (js "i 4.50"). split; [reflexivity |].
    repeat constructor; vm_compute; tauto.
Defined.

(** Both examples are genuine item lines: without the filter [Taxi 4.50]
    and [Dates 3.00] match the pattern and pass the sanity check. *)
Remark taxi_and_dates_are_price_shaped :
  matchPrice (js "Taxi 4.50") = Some (js "Taxi", js "4.50")
  /\ sanityCheck (cleanName (js "Taxi"))
                 (parseFloat (normalizePrice (js "4.50"))) = true
  /\ matchPrice (js "Dates 3.00") = Some (js "Dates", js "3.00")
  /\ sanityCheck (cleanName (js "Dates"))
                 (parseFloat (normalizePrice (js "3.00"))) = true
  /\ parseLine (js "Dates 3.00") = None.
Proof. repeat apply conj; vm_compute; reflexivity. Qed.

(** *** Empty extraction *)

(** C6.  When preprocessing, the worker and the recognition succeed, the
    invocation returns the extracted items and never throws, whatever the
    text; when no item is extracted the items are the empty sequence, and
    the only trace of it is the warning with the first 200 units of the
    text, logged after the worker was terminated. *)
Theorem C6_empty_extraction_is_a_result
        (b : Browser) (e : Engine) (img processed text : jsstring) :
  preprocessImage b img = Resolved processed ->
  workerStarts e = true ->
  recognizedText e processed = Some text ->
  workerStops e = true ->
  fst (run (parseReceiptImage b e img)) = Ok (mkResult (extractItems text))
  /\ (extractItems text = [] ->
      run (parseReceiptImage b e img)
      = (Ok (mkResult []),
         [CreateWorker; Recognize processed; Terminate;
          ConsoleWarn (substring0 200 text)])).
Proof.
  intros Hp Hs Hr Ht.
  rewrite (run_success b e img processed text Hp Hs Hr Ht).
  split; [reflexivity |].
  intros ->. reflexivity.
Qed.

(** C6 at a text without any price. *)
Lemma C6_witness :
  run (parseReceiptImage plainBrowser (readingEngine (js "@@ ~~ ##"))
                         sampleSource)
  = (Ok (mkResult []),
     [CreateWorker; Recognize (js "jpeg"); Terminate;
      ConsoleWarn (js "@@ ~~ ##")]).
Proof.
  apply (C6_empty_extraction_is_a_result
           plainBrowser (readingEngine (js "@@ ~~ ##")) sampleSource
           (js "jpeg") (js "@@ ~~ ##"));
    vm_compute; reflexivity.
Defined.

(** The empty text and a text without any price give no item. *)
Remark empty_and_garbage_text :
  extractItems [] = []
  /\ extractItems (js "@@ ~~ ##") = []
  /\ extractItems (joinLf [js "lorem ipsum"; js "12345"; js ""]) = [].
Proof. repeat apply conj; vm_compute; reflexivity. Qed.

(** *** Image load failure *)




(** *** The image normalizer *)

(** C8 as the specification states it fails: in a browser without a 2D context the promise
    resolves with the input itself, a 4000 pixels wide image. *)
Lemma C8_without_context_nothing_is_normalized :
  loadImage noContextBrowser sampleSource
  = Some (mkImage 4000 3000 sampleSource)
  /\ preprocessImage noContextBrowser sampleSource = Resolved sampleSource
  /\ (1500 < width (mkImage 4000 3000 sampleSource))%Z.
Proof. repeat apply conj; reflexivity. Qed.

(** C8, as amended.  When the image loads, a 2D context is available and
    [getImageData] returns (the canvas has an area and the browser lets
    its pixels be read), the promise resolves with the encoding of a
    canvas whose width is the smaller of the image width and 1500; an
    image at most 1500 wide keeps its dimensions, a wider one gets the
    height [Math.round(height * 1500 / width)] (1500 x 1125 for 4000 x
    3000); the data keeps its length, and in every pixel the three colour
    units receive the same value and the alpha unit is untouched: with
    gray = 0.2126 R + 0.7152 G + 0.0722 B of the drawn pixel, in binary64,
    the value is 255 when gray > 120, 0 when gray < 80, and otherwise gray
    rounded to a byte.  When [getImageData] throws, which it does whenever
    the width or the rounded height is 0, the promise never settles. *)
Theorem C8_normalized_canvas (b : Browser) (base64 : jsstring) (img : Image) :
  loadImage b base64 = Some img ->
  getContext2d b = true ->
  let c := normalizedCanvas b img in
  let drawn := drawImage b img (cwidth c) (cheight c) in
  (getImageData b img (cwidth c) (cheight c) = None ->
   preprocessImage b base64 = Pending)
  /\ (cwidth c = 0%Z \/ cheight c = 0%Z ->
      getImageData b img (cwidth c) (cheight c) = None)
  /\ targetSize 4000 3000 = (1500, 1125)%Z
  /\ (getImageData b img (cwidth c) (cheight c) = Some drawn ->
      preprocessImage b base64 = Resolved (toDataURL b c)
      /\ cwidth c = Z.min (width img) 1500
      /\ ((width img <= 1500)%Z ->
          cwidth c = width img /\ cheight c = height img)
      /\ ((1500 < width img)%Z ->
          cheight c
          = round (div (mul (ofZ (height img)) (ofZ 1500))
                       (ofZ (width img))))
      /\ length (cdata c) = length drawn
      /\ forall p, 4 * p + 2 < length drawn ->
           exists v,
             nth_error (cdata c) (4 * p) = Some v
             /\ nth_error (cdata c) (4 * p + 1) = Some v
             /\ nth_error (cdata c) (4 * p + 2) = Some v
             /\ nth_error (cdata c) (4 * p + 3) = nth_error drawn (4 * p + 3)
             /\ (gtb (grayAt drawn (4 * p)) (ofZ 120) = true -> v = 255%Z)
             /\ (gtb (grayAt drawn (4 * p)) (ofZ 120) = false ->
                 ltb (grayAt drawn (4 * p)) (ofZ 80) = true -> v = 0%Z)
             /\ (gtb (grayAt drawn (4 * p)) (ofZ 120) = false ->
                 ltb (grayAt drawn (4 * p)) (ofZ 80) = false ->
                 v = toUint8Clamp (grayAt drawn (4 * p)))).
Proof.
  intros Hl Hc c drawn.
  assert (Ec : c = mkCanvas (fst (targetSize (width img) (height img)))
                            (snd (targetSize (width img) (height img)))
                            (filterData drawn)).
  { unfold drawn, c, normalizedCanvas.
    destruct (targetSize (width img) (height img)); reflexivity. }
  assert (Ep : forall px,
             getImageData b img (cwidth c) (cheight c) = px ->
             preprocessImage b base64
             = match px with
               | Some _ => Resolved (toDataURL b c)
               | None => Pending
               end).
  { intros px <-. unfold preprocessImage. rewrite Hl, Hc.
    unfold c, normalizedCanvas.
    destruct (targetSize (width img) (height img)); reflexivity. }
  split; [intros H; exact (Ep None H) |].
  split.
  { intros H. unfold getImageData.
    destruct H as [-> | ->]; [reflexivity |].
    now rewrite orb_true_r. }
  split; [vm_compute; reflexivity |].
  intros H. repeat apply conj.
  - exact (Ep (Some drawn) H).
  - rewrite Ec. cbn [cdata cwidth cheight]. apply targetSize_width.
  - intros Hw. rewrite Ec. cbn [cdata cwidth cheight].
    unfold targetSize, MAX_WIDTH.
    destruct (Z.gtb_spec (width img) 1500); [lia | auto].
  - intros Hw. rewrite Ec. cbn [cdata cwidth cheight].
    unfold targetSize, MAX_WIDTH.
    destruct (Z.gtb_spec (width img) 1500); [reflexivity | lia].
  - rewrite Ec. cbn [cdata cwidth cheight].
    apply (filterData_spec drawn 0).
  - intros p Hp. rewrite Ec. cbn [cdata cwidth cheight].
    destruct (filterData_spec drawn p) as [_ [Hch Ha]].
    exists (toUint8Clamp (contrast (grayAt drawn (4 * p)))).
    repeat apply conj.
    + rewrite <- (Nat.add_0_r (4 * p)) at 1. apply Hch; lia.
    + apply Hch; lia.
    + apply Hch; lia.
    + exact Ha.
    + intros H0. unfold contrast. rewrite H0. reflexivity.
    + intros H1 H2. unfold contrast. rewrite H1, H2. reflexivity.
    + intros H1 H2. unfold contrast. rewrite H1, H2. reflexivity.
Qed.

(** C8 in a browser that draws the pixels (80, 80, 80) and
    (200, 100, 50) for a 4000 x 3000 image. *)
Lemma C8_witness :
  preprocessImage plainBrowser sampleSource = Resolved (js "jpeg")
  /\ cwidth (normalizedCanvas plainBrowser (mkImage 4000 3000 sampleSource))
     = 1500%Z
  /\ cheight (normalizedCanvas plainBrowser (mkImage 4000 3000 sampleSource))
     = 1125%Z
  /\ cdata (normalizedCanvas plainBrowser (mkImage 4000 3000 sampleSource))
     = [0; 0; 0; 255; 118; 118; 118; 255]%Z.
Proof.
  destruct (C8_normalized_canvas plainBrowser sampleSource
              (mkImage 4000 3000 sampleSource) eq_refl eq_refl)
    as [_ [_ [_ H]]].
  destruct (H eq_refl) as [H1 [H2 _]].
  repeat apply conj.
  - exact H1.
  - exact H2.
  - vm_compute. reflexivity.
  - vm_compute. reflexivity.
Defined.

(** An image of 4000 x 1 pixels gets the height [Math.round(0.375)], which
    is 0: [getImageData] throws inside [onload], the promise stays
    pending, and the invocation that awaits it neither returns nor
    throws, without a worker and without a log entry. *)
Remark flat_image_never_settles (e : Engine) :
  targetSize 4000 1 = (1500, 0)%Z
  /\ preprocessImage flatBrowser sampleSource = Pending
  /\ run (parseReceiptImage flatBrowser e sampleSource) = (Hangs, []).
Proof. repeat apply conj; reflexivity. Qed.

(** In binary64 the gray level of the pixel (80, 80, 80) is just below 80,
    so the pixel becomes black, while (120, 120, 120) is exactly 120 and is
    kept. *)
Remark gray_80_is_rounded_below_80 :
  ltb (grayAt [80; 80; 80; 255]%Z 0) (ofZ 80) = true
  /\ filterData [80; 80; 80; 255]%Z = [0; 0; 0; 255]%Z
  /\ filterData [120; 120; 120; 255]%Z = [120; 120; 120; 255]%Z.
Proof. repeat apply conj; vm_compute; reflexivity. Qed.

(** *** The OCR worker *)

(** C9.  When [recognize] throws, the invocation ends in the [catch] block:
    the worker that was created is never terminated. *)
Theorem C9_worker_leaks_when_recognize_throws
        (b : Browser) (e : Engine) (img processed : jsstring) :
  preprocessImage b img = Resolved processed ->
  workerStarts e = true ->
  recognizedText e processed = None ->
  run (parseReceiptImage b e img)
  = (Throw (Error failureMessage),
     [CreateWorker; Recognize processed; ConsoleError])
  /\ ~ In Terminate (snd (run (parseReceiptImage b e img))).
Proof.
  intros Hp Hs Hr.
  assert (E : run (parseReceiptImage b e img)
              = (Throw (Error failureMessage),
                 [CreateWorker; Recognize processed; ConsoleError])).
  { unfold run, parseReceiptImage, tryCatch, bind, awaitPreprocess,
      createWorker, recognize, bind, emit, ret, throw.
    rewrite Hp. simpl. rewrite Hs, Hr. reflexivity. }
  split; [exact E |].
  rewrite E. simpl. intros [H | [H | [H | []]]]; discriminate.
Qed.

(** C9 with an engine whose [recognize] throws. *)
Lemma C9_witness :
  run (parseReceiptImage plainBrowser failingEngine sampleSource)
  = (Throw (Error failureMessage),
     [CreateWorker; Recognize (js "jpeg"); ConsoleError])
  /\ ~ In Terminate
          (snd (run (parseReceiptImage plainBrowser failingEngine
                                       sampleSource))).
Proof.
  apply (C9_worker_leaks_when_recognize_throws
           plainBrowser failingEngine sampleSource (js "jpeg"));
    reflexivity.
Defined.

(** Whenever [recognize] returns, [terminate] is what the invocation
    does next, before the text is parsed: its event follows that of the
    recognition at once and comes before the warning of an empty
    extraction.  If [terminate] succeeds the result is the items parsed
    from the text; if it throws, nothing is parsed for the caller, who
    gets the error of the [catch] block. *)
Theorem worker_terminated_after_recognition
        (b : Browser) (e : Engine) (img processed text : jsstring) :
  preprocessImage b img = Resolved processed ->
  workerStarts e = true ->
  recognizedText e processed = Some text ->
  run (parseReceiptImage b e img)
  = if workerStops e
    then (Ok (mkResult (extractItems text)),
          [CreateWorker; Recognize processed; Terminate]
            ++ (if Nat.eqb (length (extractItems text)) 0
                then [ConsoleWarn (substring0 200 text)] else []))
    else (Throw (Error failureMessage),
          [CreateWorker; Recognize processed; Terminate; ConsoleError]).
Proof.
  intros Hp Hs Hr.
  unfold run, parseReceiptImage, tryCatch, bind, awaitPreprocess,
    createWorker, recognize, terminate, bind, emit, ret, throw.
  rewrite Hp. simpl. rewrite Hs, Hr. simpl.
  destruct (workerStops e); [| reflexivity].
  destruct (Nat.eqb (length (extractItems text)) 0); reflexivity.
Qed.

(** The same at the text [lorem ipsum], from which nothing is
    extracted. *)
Lemma worker_terminated_witness :
  run (parseReceiptImage plainBrowser (readingEngine (js "lorem ipsum"))
                         sampleSource)
  = (Ok (mkResult []),
     [CreateWorker; Recognize (js "jpeg"); Terminate;
      ConsoleWarn (js "lorem ipsum")]).
Proof.
  apply (worker_terminated_after_recognition
           plainBrowser (readingEngine (js "lorem ipsum")) sampleSource
           (js "jpeg") (js "lorem ipsum"));
    reflexivity.
Defined.

(** *** Order of the result *)

(** The result is the concatenation, in line order, of what each line
    contributes: at most one item per line, decided from that line alone. *)
Theorem items_follow_line_order (text : jsstring) :
  extractItems text = flat_map contribution (split_lf text)
  /\ forall line, length (contribution line) <= 1.
Proof.
  split; [apply extractItems_contributions |].
  intros line. unfold contribution. destruct (parseLine line); simpl; lia.
Qed.

(** *** The earlier revision *)

(** Where the copy under [src/services] behaves differently: only the
    first comma is turned into a dot, so [1.234,56] is read as 1.234 and
    [123,456.00] as 123.456; a group without its separator is not matched;
    a name of two units is rejected; [date] is not a keyword.  On the
    scenario text it gives the same single item. *)
Remark legacy_extractor_differs :
  Legacy.parseLine (js "Coffee 1.234,56")
  = Some (mkItem (js "Coffee") (decimal 1234 3))
  /\ Legacy.matchPrice (js "Item 1234.56") = None
  /\ Legacy.parseLine (js "Ab 9.99") = None
  /\ Legacy.parseLine (js "Dates 3.00")
     = Some (mkItem (js "Dates") (decimal 300 2))
  /\ Legacy.parseLine (js "Gold 123,456.00")
     = Some (mkItem (js "Gold") (decimal 123456 3))
  /\ Legacy.extractItems receiptText = [fries].
Proof. repeat apply conj; vm_compute; reflexivity. Qed.

(** The earlier revision loses its worker in the same way. *)
Remark legacy_worker_leak (e : Engine) (img : jsstring) :
  workerStarts e = true ->
  recognizedText e img = None ->
  run (Legacy.parseReceiptImage e img)
  = (Throw (Error Legacy.failureMessage),
     [CreateWorker; Recognize img; ConsoleError]).
Proof.
  intros Hs Hr.
  unfold run, Legacy.parseReceiptImage, tryCatch, bind,
    createWorker, recognize, bind, emit, ret, throw.
  simpl. rewrite Hs, Hr. reflexivity.
Qed.

(* ===================================================================== *)
(** ** Facts about the application and the earlier revision *)
(* ===================================================================== *)

Import App LegacyShapes AppSamples.

Section AppStringFacts.

Lemma strEq_eq (a b : jsstring) : strEq a b = true <-> a = b.
Proof.
  revert b. induction a as [|x a IH]; intros [|y b]; simpl;
    try (split; [discriminate | discriminate]); [tauto |].
  rewrite andb_true_iff, N.eqb_eq, IH. split.
  - intros [-> ->]. reflexivity.
  - intros E. inversion E. auto.
Qed.

Lemma strEq_refl (a : jsstring) : strEq a a = true.
Proof. now apply strEq_eq. Qed.

Lemma strEq_neq (a b : jsstring) : strEq a b = false <-> a <> b.
Proof.
  rewrite <- strEq_eq. destruct (strEq a b); split; congruence.
Qed.

Lemma strEq_sym (a b : jsstring) : strEq a b = strEq b a.
Proof.
  destruct (strEq a b) eqn:E; symmetry.
  - apply strEq_eq. symmetry. now apply strEq_eq.
  - apply strEq_neq. apply strEq_neq in E. congruence.
Qed.

Lemma includes_In (x : jsstring) (l : list jsstring) :
  includes x l = true <-> In x l.
Proof.
  unfold includes. rewrite existsb_exists. split.
  - intros [y [Hy E]]. apply strEq_eq in E. now subst.
  - intros H. exists x. split; [assumption | apply strEq_refl].
Qed.

Lemma includes_not_In (x : jsstring) (l : list jsstring) :
  includes x l = false <-> ~ In x l.
Proof.
  rewrite <- includes_In. destruct (includes x l); split; congruence.
Qed.

End AppStringFacts.

Section SummaryFacts.

Lemma objGet_objSet_same (k : jsstring) (v : Number) (o : SummaryObject) :
  objGet k (objSet k v o) = Some v.
Proof.
  induction o as [|[k' v'] r IH]; simpl.
  - now rewrite strEq_refl.
  - destruct (strEq k' k) eqn:E; simpl; now rewrite E.
Qed.

Lemma objGet_objSet_other (k k0 : jsstring) (v : Number)
      (o : SummaryObject) :
  k0 <> k -> objGet k (objSet k0 v o) = objGet k o.
Proof.
  intros Hne. induction o as [|[k' v'] r IH]; simpl.
  - apply strEq_neq in Hne. now rewrite Hne.
  - destruct (strEq k' k0) eqn:E; simpl.
    + apply strEq_eq in E. subst k'.
      apply strEq_neq in Hne. now rewrite Hne.
    + now rewrite IH.
Qed.

(** The entries after [partyMembers.forEach(m => summary[m.id] = 0)]. *)
Lemma zeroed_entries (k : jsstring) (ms : list PartyMember) :
  forall o,
    objGet k (fold_left (fun o m => objSet (memberId m) (ofZ 0) o) ms o)
    = if includes k (map memberId ms) then Some (ofZ 0) else objGet k o.
Proof.
  induction ms as [|m ms IH]; intros o; [reflexivity |].
  cbn [fold_left map]. rewrite IH.
  change (includes k (memberId m :: map memberId ms))
    with (strEq (memberId m) k || includes k (map memberId ms)).
  destruct (includes k (map memberId ms));
    [now rewrite orb_true_r |].
  rewrite orb_false_r.
  destruct (strEq (memberId m) k) eqn:E.
  - apply strEq_eq in E. subst k. apply objGet_objSet_same.
  - apply strEq_neq in E. now apply objGet_objSet_other.
Qed.

Lemma credit_get (k a : jsstring) (sp : Number) (o : SummaryObject) :
  objGet k (credit sp o a)
  = if strEq a k then option_map (fun v => add v sp) (objGet k o)
    else objGet k o.
Proof.
  unfold credit. destruct (strEq a k) eqn:E.
  - apply strEq_eq in E. subst a.
    destruct (objGet k o) as [v|] eqn:G; simpl.
    + apply objGet_objSet_same.
    + exact G.
  - apply strEq_neq in E.
    destruct (objGet a o); [now apply objGet_objSet_other | reflexivity].
Qed.

(** The inner [forEach]: the entry [k] receives the share once for every
    occurrence of [k] among the assignees, and no entry is created. *)
Lemma credits_get (k : jsstring) (sp : Number) (l : list jsstring) :
  forall o,
    objGet k (fold_left (credit sp) l o)
    = option_map
        (fun v => fold_left add
                    (map (fun _ => sp) (filter (fun a => strEq a k) l)) v)
        (objGet k o).
Proof.
  induction l as [|a l IH]; intros o; simpl.
  - now destruct (objGet k o).
  - rewrite IH, credit_get.
    destruct (strEq a k); [| reflexivity].
    destruct (objGet k o); reflexivity.
Qed.

(** The outer [forEach] on the entry [k]. *)
Lemma summaryStep_get (k : jsstring) (its : list ReceiptItem) :
  forall o u,
    objGet k (fst (fold_left summaryStep its (o, u)))
    = option_map (fun v => fold_left add (sharesOf k its) v) (objGet k o).
Proof.
  induction its as [|it its IH]; intros o u; simpl.
  - now destruct (objGet k o).
  - unfold sharesOf. simpl. fold (sharesOf k its).
    destruct (length (assignedTo it) =? 0) eqn:E.
    + apply Nat.eqb_eq in E. apply length_zero_iff_nil in E.
      rewrite IH, E. simpl. reflexivity.
    + rewrite IH, credits_get.
      destruct (objGet k o); cbn [option_map]; [| reflexivity].
      now rewrite fold_left_app.
Qed.

(** The outer [forEach] on the unassigned total. *)
Lemma summaryStep_unassigned (its : list ReceiptItem) :
  forall o u,
    snd (fold_left summaryStep its (o, u))
    = fold_left add
        (map itemPrice
             (filter (fun it => length (assignedTo it) =? 0) its)) u.
Proof.
  induction its as [|it its IH]; intros o u; simpl; [reflexivity |].
  destruct (length (assignedTo it) =? 0); simpl; apply IH.
Qed.

End SummaryFacts.

Section LegacyFacts.

Lemma legacy_parseLine_inv (line : jsstring) (item : LineItem) :
  Legacy.parseLine line = Some item ->
  test Legacy.keywordRegex (trim line) = false
  /\ exists nm tok,
      Legacy.matchPrice (trim line) = Some (nm, tok)
      /\ item = mkItem (Legacy.cleanName nm)
                       (parseFloat (Legacy.normalizePrice tok))
      /\ Legacy.sanityCheck (Legacy.cleanName nm)
                            (parseFloat (Legacy.normalizePrice tok)) = true.
Proof.
  unfold Legacy.parseLine. intros H.
  destruct (test Legacy.keywordRegex (trim line)); [discriminate |].
  destruct (Legacy.matchPrice (trim line)) as [[nm tok]|]; [| discriminate].
  destruct (Legacy.sanityCheck _ _) eqn:Es; [| discriminate].
  inversion H; subst. split; [reflexivity |].
  exists nm, tok. auto.
Qed.

Lemma legacy_loop_spec (P : LineItem -> Prop) :
  (forall line item, Legacy.parseLine line = Some item -> P item) ->
  forall lines acc,
    Forall P acc -> Forall P (fold_left Legacy.processLine lines acc).
Proof.
  intros HP lines. induction lines as [|l ls IH]; intros acc H; simpl;
    [exact H |].
  apply IH. unfold Legacy.processLine.
  destruct (Legacy.parseLine l) as [it|] eqn:E; [| exact H].
  apply Forall_app. split; [exact H |].
  constructor; [| constructor]. now apply HP with (line := l).
Qed.

(** How the earlier revision settles: with the items of the recognised
    text, or with its one error. *)
Lemma legacy_run_cases (e : Engine) (img : jsstring) :
  (exists text,
      workerStarts e = true /\ recognizedText e img = Some text
      /\ workerStops e = true
      /\ fst (run (Legacy.parseReceiptImage e img))
         = Ok (mkResult (Legacy.extractItems text)))
  \/ ((workerStarts e = false \/ recognizedText e img = None
       \/ workerStops e = false)
      /\ fst (run (Legacy.parseReceiptImage e img))
         = Throw (Error Legacy.failureMessage)).
Proof.
  unfold run, Legacy.parseReceiptImage, tryCatch, bind,
    createWorker, recognize, terminate, bind, emit, ret, throw.
  simpl.
  destruct (workerStarts e) eqn:Hs; simpl; [| right; auto].
  destruct (recognizedText e img) as [text|] eqn:Hr; simpl; [| right; auto].
  destruct (workerStops e) eqn:Ht; simpl; [| right; auto].
  left. exists text. repeat split.
  destruct (Nat.eqb (length (Legacy.extractItems text)) 0); reflexivity.
Qed.

End LegacyFacts.

Section SessionFacts.

Lemma withIds_In (gen : nat -> jsstring) (parsed : list LineItem) :
  forall i it, In it (withIds gen i parsed) ->
    assignedTo it = []
    /\ exists p, In p parsed /\ itemName it = name p /\ itemPrice it = price p.
Proof.
  induction parsed as [|p ps IH]; intros i it H; simpl in H; [destruct H |].
  destruct H as [<- | H].
  - split; [reflexivity |]. exists p. simpl. auto.
  - destruct (IH _ _ H) as [E [q [Hq Hn]]]. split; [exact E |].
    exists q. simpl. auto.
Qed.

Lemma withIds_fields (gen : nat -> jsstring) (parsed : list LineItem) :
  forall i,
    map itemName (withIds gen i parsed) = map name parsed
    /\ map itemPrice (withIds gen i parsed) = map price parsed
    /\ map itemId (withIds gen i parsed)
       = map gen (List.seq i (length parsed)).
Proof.
  induction parsed as [|p ps IH]; intros i; simpl; [auto |].
  destruct (IH (S i)) as [E1 [E2 E3]]. now rewrite E1, E2, E3.
Qed.

Lemma legacy_prices_are_numbers (text : jsstring) :
  Forall (fun p => 2 < length (name p) /\ isNaN (price p) = false
                   /\ gtb (price p) (ofZ 0) = true)
         (Legacy.extractItems text).
Proof.
  unfold Legacy.extractItems. apply legacy_loop_spec; [| constructor].
  intros line item H. apply legacy_parseLine_inv in H.
  destruct H as [_ [nm [tok [_ [-> Hs]]]]].
  unfold Legacy.sanityCheck in Hs. simpl.
  apply andb_prop in Hs. destruct Hs as [Hs H3].
  apply andb_prop in Hs. destruct Hs as [H1 H2].
  apply Nat.ltb_lt in H1. apply negb_true_iff in H2. auto.
Qed.

Lemma orZero_number (p : Number) : isNaN (orZero p) = false.
Proof. destruct p; reflexivity. Qed.

Lemma NoDup_snoc (x : jsstring) (l : list jsstring) :
  NoDup l -> ~ In x l -> NoDup (l ++ [x]).
Proof.
  intros Hl Hx. induction Hl as [|y l Hy Hl IH]; simpl.
  - constructor; [intros [] | constructor].
  - constructor.
    + rewrite in_app_iff. intros [H | [H | []]]; [contradiction |].
      subst. apply Hx. now left.
    + apply IH. intros H. apply Hx. now right.
Qed.

Lemma NoDup_filter' {A : Type} (p : A -> bool) (l : list A) :
  NoDup l -> NoDup (filter p l).
Proof.
  induction 1 as [|x l Hx Hl IH]; simpl; [constructor |].
  destruct (p x); [| exact IH].
  constructor; [| exact IH]. intros H. apply filter_In in H. tauto.
Qed.

(** The item that a toggle produces. *)
Lemma toggle_In (i m : jsstring) (s : AppState) (it' : ReceiptItem) :
  In it' (items (toggleAssignment i m s)) ->
  exists it, In it (items s)
    /\ itemId it' = itemId it /\ itemName it' = itemName it
    /\ itemPrice it' = itemPrice it
    /\ (assignedTo it' = assignedTo it
        \/ (~ In m (assignedTo it) /\ assignedTo it' = assignedTo it ++ [m])
        \/ assignedTo it'
           = filter (fun id => negb (strEq id m)) (assignedTo it)).
Proof.
  unfold toggleAssignment. simpl. intros H. apply in_map_iff in H.
  destruct H as [it [<- Hin]]. exists it. split; [exact Hin |].
  destruct (negb (strEq (itemId it) i)); [auto 6 |].
  simpl. repeat split.
  destruct (includes m (assignedTo it)) eqn:E; [auto |].
  apply includes_not_In in E. auto.
Qed.

Lemma update_In (id : jsstring) (fv : FieldValue) (s : AppState)
      (it' : ReceiptItem) :
  In it' (items (handleUpdateItem id fv s)) ->
  exists it, In it (items s)
    /\ itemId it' = itemId it /\ assignedTo it' = assignedTo it
    /\ (itemPrice it' = itemPrice it
        \/ exists v, fv = PriceValue v /\ itemPrice it' = v).
Proof.
  unfold handleUpdateItem. simpl. intros H. apply in_map_iff in H.
  destruct H as [it [<- Hin]]. exists it. split; [exact Hin |].
  destruct (strEq (itemId it) id); [| auto].
  destruct fv; simpl; eauto 6.
Qed.

Lemma onloadend_cases (e : Engine) (b : jsstring) (gen : nat -> jsstring)
      (s : AppState) :
  (exists text,
      recognizedText e b = Some text
      /\ onloadend e b gen s
         = setIsProcessing false
             (setStep Verification
                (setItems (withIds gen 0 (Legacy.extractItems text))
                   (if length (withIds gen 0 (Legacy.extractItems text)) =? 0
                    then setError
                           (Some ("We couldn't detect any items automatically. "
                                  ++ "You can add them manually in the next step.")
                              %string) s
                    else s))))
  \/ onloadend e b gen s
     = setIsProcessing false
         (setError
            (Some "Failed to read receipt text. Please try a clearer photo."
               %string) s).
Proof.
  unfold onloadend.
  destruct (legacy_run_cases e b) as [[text [_ [Hr [_ E]]]] | [_ E]];
    rewrite E.
  - left. exists text. split; [exact Hr | reflexivity].
  - right. reflexivity.
Qed.

End SessionFacts.

Section InvariantProof.

Ltac fields :=
  unfold sessionInvariant, distinctAssignees, pricesAreNumbers,
    assigneesAreMembers, pastUpload, beforeVerification, memberIds,
    itemIds in *;
  cbn [step partyMembers items isProcessing error currency
       setStep setPartyMembers setItems setIsProcessing setError
       setCurrency] in *.

Ltac steps := intuition (try congruence; eauto).

Lemma invariant_initial (id1 id2 : jsstring) :
  sessionInvariant (initialState id1 id2).
Proof.
  unfold initialState. fields. repeat split; intros; try contradiction;
    try discriminate; steps.
Qed.

Lemma invariant_onloadend (e : Engine) (b : jsstring)
      (gen : nat -> jsstring) (s : AppState) :
  sessionInvariant s -> sessionInvariant (onloadend e b gen s).
Proof.
  intros [D [P [B A]]].
  destruct (onloadend_cases e b gen s) as [[text [_ E]] | E]; rewrite E.
  - (* parsed *)
    fields. repeat split.
    + intros it H.
      destruct (length (withIds gen 0 (Legacy.extractItems text)) =? 0);
        cbn [items setError] in H;
        apply withIds_In in H; destruct H as [-> _]; constructor.
    + intros it H.
      assert (H' : In it (withIds gen 0 (Legacy.extractItems text))).
      { destruct (length (withIds gen 0 (Legacy.extractItems text)) =? 0);
          exact H. }
      apply withIds_In in H'. destruct H' as [_ [p [Hp [_ ->]]]].
      pose proof (legacy_prices_are_numbers text) as F.
      rewrite Forall_forall in F. now destruct (F p Hp) as [_ [? _]].
    + discriminate.
    + intros _ it a H Ha.
      assert (H' : In it (withIds gen 0 (Legacy.extractItems text))).
      { destruct (length (withIds gen 0 (Legacy.extractItems text)) =? 0);
          exact H. }
      apply withIds_In in H'. destruct H' as [E0 _].
      rewrite E0 in Ha. destruct Ha.
  - (* failed *)
    fields. repeat split; steps.
Qed.

Lemma invariant_step (ev : Event) (s : AppState) :
  sessionInvariant s -> enabled ev s -> sessionInvariant (handle ev s).
Proof.
  intros I En. destruct ev; cbn [handle];
    try (apply invariant_onloadend; exact I);
    destruct I as [D [P [B A]]]; cbn [enabled] in En.
  - (* AddPerson *)
    unfold handleAddMember. fields. repeat split; steps.
  - (* RemovePerson *)
    unfold handleRemoveMember.
    destruct (length (partyMembers s) <=? 1); fields; repeat split; steps.
  - (* RenamePerson *)
    unfold handleMemberNameChange. fields. repeat split; steps.
  - (* SelectCurrency *)
    fields. repeat split; steps.
  - (* NextUploadReceipt *)
    unfold validateParty.
    destruct (length _ =? 0); fields; repeat split; steps.
  - (* ChooseFile *)
    unfold handleFileUpload. destruct file as [f|]; [| fields; repeat split; steps].
    destruct (negb _); fields; repeat split; steps.
  - (* BackToParty *)
    fields. repeat split; steps.
  - (* EditItemName *)
    destruct En as [En _].
    assert (Hp : isProcessing s = false).
    { destruct (isProcessing s); [| reflexivity].
      destruct (B eq_refl); congruence. }
    assert (Am : assigneesAreMembers s) by (apply A; left; exact En).
    unfold sessionInvariant, distinctAssignees, pricesAreNumbers,
      assigneesAreMembers. repeat split.
    + intros it H. apply update_In in H.
      destruct H as [it0 [H0 [_ [-> _]]]]. now apply D.
    + intros it H. apply update_In in H.
      destruct H as [it0 [H0 [_ [_ [-> | [w [Ev _]]]]]]];
        [now apply P | discriminate].
    + cbn. intros H. congruence.
    + intros _ it a H Ha. apply update_In in H.
      destruct H as [it0 [H0 [_ [E _]]]]. rewrite E in Ha.
      exact (Am it0 a H0 Ha).
  - (* EditItemPrice *)
    destruct En as [En _].
    assert (Hp : isProcessing s = false).
    { destruct (isProcessing s); [| reflexivity].
      destruct (B eq_refl); congruence. }
    assert (Am : assigneesAreMembers s) by (apply A; left; exact En).
    unfold sessionInvariant, distinctAssignees, pricesAreNumbers,
      assigneesAreMembers. repeat split.
    + intros it H. apply update_In in H.
      destruct H as [it0 [H0 [_ [-> _]]]]. now apply D.
    + intros it H. apply update_In in H.
      destruct H as [it0 [H0 [_ [_ [-> | [w [Ev ->]]]]]]];
        [now apply P |].
      inversion Ev. apply orZero_number.
    + cbn. intros H. congruence.
    + intros _ it a H Ha. apply update_In in H.
      destruct H as [it0 [H0 [_ [E _]]]]. rewrite E in Ha.
      exact (Am it0 a H0 Ha).
  - (* DeleteItem *)
    destruct En as [En _].
    assert (Hp : isProcessing s = false).
    { destruct (isProcessing s); [| reflexivity].
      destruct (B eq_refl); congruence. }
    assert (Am : assigneesAreMembers s) by (apply A; left; exact En).
    unfold handleDeleteItem. fields. repeat split; intros.
    + apply D. now apply filter_In in H.
    + apply P. now apply filter_In in H.
    + congruence.
    + apply filter_In in H0. destruct H0 as [H0 _]. eauto.
  - (* AddMissingItem *)
    assert (Hp : isProcessing s = false).
    { destruct (isProcessing s); [| reflexivity].
      destruct (B eq_refl); congruence. }
    assert (Am : assigneesAreMembers s) by (apply A; left; exact En).
    unfold handleAddItemManual. fields. repeat split; intros.
    + apply in_app_or in H. destruct H as [H | [<- | []]];
        [now apply D | constructor].
    + apply in_app_or in H. destruct H as [H | [<- | []]];
        [now apply P | reflexivity].
    + congruence.
    + apply in_app_or in H0. destruct H0 as [H0 | [<- | []]];
        [eauto | destruct H1].
  - (* Retake *)
    fields. repeat split; steps.
  - (* ConfirmItems *)
    fields. repeat split; steps;
      match goal with H : isProcessing s = true |- _ =>
        destruct (B H); congruence end.
  - (* TogglePerson *)
    destruct En as [En [_ Hm]].
    assert (Hp : isProcessing s = false).
    { destruct (isProcessing s); [| reflexivity].
      destruct (B eq_refl); congruence. }
    assert (Am : assigneesAreMembers s) by (apply A; right; left; exact En).
    unfold sessionInvariant, distinctAssignees, pricesAreNumbers,
      assigneesAreMembers. repeat split.
    + intros it H. apply toggle_In in H.
      destruct H as [it0 [H0 [_ [_ [_ [-> | [[Hn ->] | ->]]]]]]].
      * now apply D.
      * apply NoDup_snoc; [now apply D | exact Hn].
      * apply NoDup_filter'. now apply D.
    + intros it H. apply toggle_In in H.
      destruct H as [it0 [H0 [_ [_ [-> _]]]]]. now apply P.
    + cbn. intros H. congruence.
    + intros _ it a H Ha. apply toggle_In in H.
      destruct H as [it0 [H0 [_ [_ [_ [E | [[Hn E] | E]]]]]]];
        rewrite E in Ha.
      * exact (Am it0 a H0 Ha).
      * apply in_app_or in Ha. destruct Ha as [Ha | [<- | []]];
          [exact (Am it0 a H0 Ha) | exact Hm].
      * apply filter_In in Ha. destruct Ha as [Ha _].
        exact (Am it0 a H0 Ha).
  - (* BackToVerification *)
    fields. repeat split; steps;
      match goal with H : isProcessing s = true |- _ =>
        destruct (B H); congruence end.
  - (* CalculateSplit *)
    fields. repeat split; steps;
      match goal with H : isProcessing s = true |- _ =>
        destruct (B H); congruence end.
  - (* EditAssignments *)
    fields. repeat split; steps;
      match goal with H : isProcessing s = true |- _ =>
        destruct (B H); congruence end.
  - (* StartOver *)
    unfold resetApp. fields. repeat split; intros; try contradiction; steps.
Qed.

Lemma reachable_invariant (s : AppState) :
  reachable s -> sessionInvariant s.
Proof.
  induction 1 as [id1 id2 | s ev _ IH En].
  - apply invariant_initial.
  - now apply invariant_step.
Qed.

End InvariantProof.

Section PartyFacts.

Ltac fields :=
  unfold messageInvariant, memberIds, itemIds in *;
  cbn [step partyMembers items isProcessing error currency
       setStep setPartyMembers setItems setIsProcessing setError
       setCurrency] in *.

(** The condition that disables the Next button is the condition under
    which [validateParty] finds no valid member. *)
Lemma valid_members_exist (ms : list PartyMember) :
  forallb (fun m => isBlank (memberName m)) ms = false <->
  (length (filter (fun m => negb (isBlank (memberName m))) ms) =? 0) = false.
Proof.
  induction ms as [|m ms IH]; simpl; [split; discriminate |].
  destruct (isBlank (memberName m)); simpl; [exact IH |].
  split; reflexivity.
Qed.

Lemma validateParty_enabled (s : AppState) :
  forallb (fun m => isBlank (memberName m)) (partyMembers s) = false ->
  validateParty s
  = setStep ReceiptUpload
      (setError None
         (setPartyMembers
            (filter (fun m => negb (isBlank (memberName m))) (partyMembers s))
            s)).
Proof.
  intros H. apply valid_members_exist in H.
  unfold validateParty. now rewrite H.
Qed.

Lemma message_initial (id1 id2 : jsstring) :
  messageInvariant (initialState id1 id2).
Proof. unfold initialState. fields. repeat split; discriminate. Qed.

Lemma message_onloadend (e : Engine) (b : jsstring) (gen : nat -> jsstring)
      (s : AppState) :
  messageInvariant s -> messageInvariant (onloadend e b gen s).
Proof.
  intros [E P].
  destruct (onloadend_cases e b gen s) as [[text [_ Eq]] | Eq]; rewrite Eq.
  - fields. split; [| discriminate].
    destruct (length _ =? 0); cbn [error setError]; [| exact E].
    intros H. inversion H.
  - fields. split; [| discriminate]. intros H. inversion H.
Qed.

Lemma message_step (ev : Event) (s : AppState) :
  messageInvariant s -> enabled ev s -> messageInvariant (handle ev s).
Proof.
  intros I En. destruct ev; cbn [handle];
    try (apply message_onloadend; exact I);
    destruct I as [E P]; cbn [enabled] in En;
    try (fields; split; assumption).
  - (* RemovePerson *)
    unfold handleRemoveMember.
    destruct (length (partyMembers s) <=? 1); fields; split; assumption.
  - (* NextUploadReceipt *)
    destruct En as [_ En]. rewrite (validateParty_enabled s En).
    fields. split; [discriminate | reflexivity].
  - (* ChooseFile *)
    destruct En as [_ En]. unfold handleFileUpload.
    destruct file as [f|]; [| split; assumption].
    destruct (negb _); fields.
    + split; [| congruence]. intros H. inversion H.
    + split; [discriminate | reflexivity].
  - (* StartOver *)
    unfold resetApp. fields. split; [discriminate |].
    reflexivity.
Qed.

Lemma reachable_message (s : AppState) :
  reachable s -> messageInvariant s.
Proof.
  induction 1 as [id1 id2 | s ev _ IH En].
  - apply message_initial.
  - now apply message_step.
Qed.

Lemma reachableFresh_reachable (s : AppState) :
  reachableFresh s -> reachable s.
Proof.
  induction 1 as [id1 id2 _ | s ev _ IH En _].
  - apply reach_init.
  - now apply reach_step.
Qed.

(** Dropping members keeps their identifiers distinct. *)
Lemma ids_after_filter (keep : PartyMember -> bool) (ms : list PartyMember) :
  NoDup (map memberId ms) -> NoDup (map memberId (filter keep ms)).
Proof.
  induction ms as [|m ms IH]; simpl; intros H; [constructor |].
  inversion H as [|y l' Hx Hl]; subst.
  destruct (keep m); simpl; [| auto].
  constructor; [| auto].
  rewrite in_map_iff in *. intros [z [Ez Hz]].
  apply Hx. exists z. apply filter_In in Hz. tauto.
Qed.

(** Among members with distinct identifiers at most one has a given
    identifier. *)
Lemma remove_at_most_one (id : jsstring) (ms : list PartyMember) :
  NoDup (map memberId ms) ->
  length ms
  <= S (length (filter (fun m => negb (strEq (memberId m) id)) ms)).
Proof.
  induction ms as [|m ms IH]; simpl; intros H; [lia |].
  inversion H as [|y l' Hx Hl]; subst.
  destruct (strEq (memberId m) id) eqn:E; simpl; [| specialize (IH Hl); lia].
  apply strEq_eq in E. subst id.
  assert (F : filter (fun m0 => negb (strEq (memberId m0) (memberId m))) ms
              = ms).
  { clear IH H Hl. induction ms as [|m' ms IH]; simpl; [reflexivity |].
    destruct (strEq (memberId m') (memberId m)) eqn:E'.
    - apply strEq_eq in E'. exfalso. apply Hx. left. exact E'.
    - simpl. f_equal. apply IH. intros H. apply Hx. now right. }
  rewrite F. lia.
Qed.

Lemma rename_keeps_ids (id nm : jsstring) (ms : list PartyMember) :
  map memberId
      (map (fun m => if strEq (memberId m) id
                     then mkMember (memberId m) nm else m) ms)
  = map memberId ms.
Proof.
  induction ms as [|m ms IH]; simpl; [reflexivity |].
  rewrite IH. now destruct (strEq (memberId m) id).
Qed.

Lemma party_onloadend (e : Engine) (b : jsstring) (gen : nat -> jsstring)
      (s : AppState) :
  partyMembers (onloadend e b gen s) = partyMembers s.
Proof.
  destruct (onloadend_cases e b gen s) as [[text [_ Eq]] | Eq]; rewrite Eq;
    [| reflexivity].
  cbn. now destruct (length _ =? 0).
Qed.

Lemma party_step (ev : Event) (s : AppState) :
  wellFormedParty s -> enabled ev s ->
  match ev with AddPerson i => ~ In i (memberIds s) | _ => True end ->
  wellFormedParty (handle ev s).
Proof.
  unfold wellFormedParty, memberIds.
  intros [N P] En Fr. destruct ev; cbn [handle];
    try (rewrite party_onloadend; split; assumption);
    try (split; assumption); cbn [enabled] in En.
  - (* AddPerson *)
    unfold handleAddMember. cbn. rewrite map_app. split.
    + now apply NoDup_snoc.
    + intros H. apply app_eq_nil in H. destruct H as [_ H]. discriminate.
  - (* RemovePerson *)
    unfold handleRemoveMember.
    destruct (length (partyMembers s) <=? 1) eqn:El; [split; assumption |].
    cbn. split; [now apply ids_after_filter |].
    apply Nat.leb_gt in El.
    pose proof (remove_at_most_one id (partyMembers s) N) as Hl.
    intros H. rewrite H in Hl. simpl in Hl. lia.
  - (* RenamePerson *)
    unfold handleMemberNameChange. cbn. rewrite rename_keeps_ids.
    split; [assumption |].
    destruct (partyMembers s); [congruence | discriminate].
  - (* NextUploadReceipt *)
    destruct En as [_ En]. rewrite (validateParty_enabled s En). cbn.
    split; [now apply ids_after_filter |].
    apply valid_members_exist in En. intros H. rewrite H in En.
    discriminate.
  - (* ChooseFile *)
    unfold handleFileUpload. destruct file as [f|]; [| split; assumption].
    destruct (negb _); split; assumption.
Qed.

End PartyFacts.

Section AssignmentFacts.

Lemma Forall2_map_right {A B : Type} (R : A -> B -> Prop) (f : A -> B)
      (l : list A) :
  (forall x, In x l -> R x (f x)) -> Forall2 R l (map f l).
Proof.
  induction l as [|x l IH]; simpl; intros H; constructor; auto.
Qed.

Lemma includes_app (k : jsstring) (a b : list jsstring) :
  includes k (a ++ b) = includes k a || includes k b.
Proof. unfold includes. apply existsb_app. Qed.

Lemma includes_without (k m : jsstring) (l : list jsstring) :
  includes k (filter (fun id => negb (strEq id m)) l)
  = if strEq k m then false else includes k l.
Proof.
  induction l as [|x l IH]; simpl; [now destruct (strEq k m) |].
  destruct (strEq x m) eqn:Exm; simpl.
  - rewrite IH. destruct (strEq k m) eqn:Ekm; [reflexivity |].
    apply strEq_eq in Exm. subst x. rewrite strEq_sym, Ekm. reflexivity.
  - rewrite IH. destruct (strEq k m) eqn:Ekm; [| reflexivity].
    apply strEq_eq in Ekm. subst k. now rewrite Exm.
Qed.

Lemma without_absent (m : jsstring) (l : list jsstring) :
  ~ In m l -> filter (fun id => negb (strEq id m)) l = l.
Proof.
  induction l as [|x l IH]; simpl; intros H; [reflexivity |].
  destruct (strEq x m) eqn:E.
  - apply strEq_eq in E. exfalso. apply H. now left.
  - simpl. f_equal. apply IH. intros Hin. apply H. now right.
Qed.

Lemma move_to_end (m : jsstring) (l : list jsstring) :
  NoDup l -> In m l ->
  Permutation l (filter (fun id => negb (strEq id m)) l ++ [m]).
Proof.
  induction 1 as [|x l Hx Hl IH]; intros Hin; [destruct Hin |].
  simpl. destruct (strEq x m) eqn:E; simpl.
  - apply strEq_eq in E. subst x. rewrite without_absent by exact Hx.
    apply Permutation_cons_append.
  - apply perm_skip. apply IH. destruct Hin as [-> | Hin]; [| exact Hin].
    rewrite strEq_refl in E. discriminate.
Qed.

(** The item that [toggleAssignment] maps [it] to. *)
Lemma toggle_item (i m : jsstring) (s : AppState) :
  items (toggleAssignment i m s)
  = map (fun it =>
           if strEq (itemId it) i
           then mkReceiptItem (itemId it) (itemName it) (itemPrice it)
                  (if includes m (assignedTo it)
                   then filter (fun id => negb (strEq id m)) (assignedTo it)
                   else assignedTo it ++ [m])
           else it)
        (items s).
Proof.
  unfold toggleAssignment. cbn [items setItems]. apply map_ext.
  intros it. now destruct (strEq (itemId it) i).
Qed.

Lemma toggle_flips (i m : jsstring) (it : ReceiptItem) :
  toggledItem i m it
    (if strEq (itemId it) i
     then mkReceiptItem (itemId it) (itemName it) (itemPrice it)
            (if includes m (assignedTo it)
             then filter (fun id => negb (strEq id m)) (assignedTo it)
             else assignedTo it ++ [m])
     else it).
Proof.
  unfold toggledItem. destruct (strEq (itemId it) i); [| auto].
  cbn [itemId itemName itemPrice assignedTo]. repeat split.
  intros k. destruct (includes m (assignedTo it)) eqn:E.
  - rewrite includes_without. now destruct (strEq k m).
  - rewrite includes_app. cbn [includes existsb]. rewrite orb_false_r.
    rewrite (strEq_sym m k).
    destruct (strEq k m) eqn:Ekm; [apply orb_true_r | apply orb_false_r].
Qed.

Lemma toggle_twice (i m : jsstring) (it : ReceiptItem) :
  NoDup (assignedTo it) ->
  let f := fun it =>
    if strEq (itemId it) i
    then mkReceiptItem (itemId it) (itemName it) (itemPrice it)
           (if includes m (assignedTo it)
            then filter (fun id => negb (strEq id m)) (assignedTo it)
            else assignedTo it ++ [m])
    else it in
  sameAssignment it (f (f it)).
Proof.
  intros N f. unfold f, sameAssignment.
  destruct (strEq (itemId it) i) eqn:E; [| rewrite E; auto].
  cbn [itemId itemName itemPrice assignedTo]. rewrite E.
  cbn [itemId itemName itemPrice assignedTo]. repeat split.
  destruct (includes m (assignedTo it)) eqn:Em.
  - rewrite includes_without, strEq_refl.
    apply move_to_end; [exact N | now apply includes_In].
  - rewrite includes_app. cbn [includes existsb]. rewrite strEq_refl.
    rewrite orb_true_r. rewrite filter_app. cbn [filter].
    rewrite strEq_refl. cbn [negb]. rewrite app_nil_r.
    rewrite without_absent by now apply includes_not_In.
    apply Permutation_refl.
Qed.

Lemma assignAll_item (m : jsstring) (it : ReceiptItem) :
  let g := fun item =>
    mkReceiptItem (itemId item) (itemName item) (itemPrice item)
      (if includes m (assignedTo item) then assignedTo item
       else assignedTo item ++ [m]) in
  g (g it) = g it /\ In m (assignedTo (g it)).
Proof.
  intros g. unfold g. cbn [itemId itemName itemPrice assignedTo].
  destruct (includes m (assignedTo it)) eqn:E.
  - rewrite E. split; [reflexivity | now apply includes_In].
  - rewrite includes_app. cbn [includes existsb]. rewrite strEq_refl.
    rewrite orb_true_r. split; [reflexivity |].
    apply in_or_app. right. now left.
Qed.

End AssignmentFacts.

Section SummaryTotals.

Lemma summary_entry (k : jsstring) (s : AppState) :
  objGet k (fst (calculateSummary s))
  = if includes k (memberIds s)
    then Some (fold_left add (sharesOf k (items s)) (ofZ 0))
    else None.
Proof.
  unfold calculateSummary, memberIds.
  rewrite summaryStep_get, zeroed_entries.
  now destruct (includes k (map memberId (partyMembers s))).
Qed.

Lemma summary_unassigned (s : AppState) :
  snd (calculateSummary s)
  = fold_left add
      (map itemPrice
           (filter (fun it => length (assignedTo it) =? 0) (items s)))
      (ofZ 0).
Proof. unfold calculateSummary. apply summaryStep_unassigned. Qed.

Lemma occurrences_distinct (k : jsstring) (l : list jsstring) :
  NoDup l ->
  filter (fun a => strEq a k) l = if includes k l then [k] else [].
Proof.
  induction 1 as [|x l Hx Hl IH]; [reflexivity |].
  cbn [filter includes existsb]. fold (includes k l).
  destruct (strEq x k) eqn:E; cbn [orb].
  - apply strEq_eq in E. subst x. rewrite IH.
    apply includes_not_In in Hx. now rewrite Hx.
  - exact IH.
Qed.

Lemma shares_distinct (k : jsstring) (its : list ReceiptItem) :
  (forall it, In it its -> NoDup (assignedTo it)) ->
  sharesOf k its = map splitPrice (itemsOf k its).
Proof.
  unfold sharesOf, itemsOf. induction its as [|it its IH]; intros H;
    [reflexivity |].
  cbn [flat_map filter]. rewrite IH by (intros x Hx; apply H; now right).
  rewrite occurrences_distinct by (apply H; now left).
  now destruct (includes k (assignedTo it)).
Qed.

Lemma shares_none (k : jsstring) (its : list ReceiptItem) :
  (forall it, In it its -> assignedTo it = []) -> sharesOf k its = [].
Proof.
  unfold sharesOf. induction its as [|it its IH]; intros H; [reflexivity |].
  cbn [flat_map]. rewrite IH by (intros x Hx; apply H; now right).
  rewrite (H it) by now left. reflexivity.
Qed.

Lemma fold_left_prices (its : list ReceiptItem) :
  forall u,
    fold_left add (map itemPrice its) u
    = fold_left (fun sum i => add sum (itemPrice i)) its u.
Proof. induction its as [|it its IH]; intros u; simpl; auto. Qed.

Lemma unassigned_all (its : list ReceiptItem) :
  (forall it, In it its -> assignedTo it = []) ->
  filter (fun it => length (assignedTo it) =? 0) its = its.
Proof.
  induction its as [|it its IH]; intros H; [reflexivity |].
  cbn [filter]. rewrite (H it) by now left. cbn [length Nat.eqb].
  f_equal. apply IH. intros x Hx. apply H. now right.
Qed.

Lemma unassigned_none (its : list ReceiptItem) :
  (forall it, In it its -> assignedTo it <> []) ->
  filter (fun it => length (assignedTo it) =? 0) its = [].
Proof.
  induction its as [|it its IH]; intros H; [reflexivity |].
  cbn [filter]. destruct (assignedTo it) as [|a l] eqn:E.
  - exfalso. apply (H it); [now left | exact E].
  - cbn [length Nat.eqb]. apply IH. intros x Hx. apply H. now right.
Qed.

End SummaryTotals.

Section LegacyTokenFacts.

Lemma iterated_sepGroups (w : jsstring) :
  iterated (fun v => exists sp ds, v = sp ++ ds
              /\ (exists c, sp = [c] /\ isDecimalSep c = true)
              /\ (length ds = 3 /\ unitsOf isDigit ds)) w ->
  sepGroups w.
Proof.
  induction 1 as [|w1 w2 [sp [ds [-> [[c [-> Hc]] [Hd Hu]]]]] _ IH].
  - constructor.
  - rewrite <- app_assoc. cbn [app]. now apply pg_cons.
Qed.

Lemma accepts_legacy_priceToken : accepts Legacy.priceToken legacyPriceToken.
Proof.
  unfold Legacy.priceToken, range.
  eapply accepts_weaken.
  - apply accepts_seq.
    + apply accepts_seq;
        [apply (accepts_times_chr isDigit 1)
        | apply (accepts_upto_chr isDigit (3 - 1))].
    + apply accepts_seq.
      * apply accepts_star. apply accepts_seq;
          [apply (accepts_chr isDecimalSep)
          | apply (accepts_times_chr isDigit 3)].
      * apply accepts_seq;
          [apply (accepts_chr isDecimalSep)
          | apply (accepts_times_chr isDigit 2)].
  - intros w [lead [w' [-> [Hlead [grp [w'' [-> [Hgrp Htail]]]]]]]].
    destruct Hlead as [l1 [l2 [-> [[Hl1 Hu1] [Hl2 Hu2]]]]].
    destruct Htail as [sp [cents [-> [[s [-> Hs]] [Hlc Huc]]]]].
    exists (l1 ++ l2), grp, s, cents. simpl in *.
    repeat split; auto.
    + rewrite length_app. lia.
    + rewrite length_app. lia.
    + apply Forall_app. split; assumption.
    + now apply iterated_sepGroups.
Qed.

Lemma legacy_priceRegex_inv (s : jsstring) (st : state) :
  In st (Legacy.priceRegex (mkState 0 s [])) ->
  exists nm ws tok ws',
    s = nm ++ ws ++ tok ++ ws'
    /\ caps st = [(2, tok); (1, nm)]
    /\ (nm <> [] /\ unitsOf anyUnit nm)
    /\ (ws <> [] /\ allWhite ws)
    /\ legacyPriceToken tok
    /\ allWhite ws'.
Proof.
  unfold Legacy.priceRegex, seq. intros H.
  apply in_flat_map in H. destruct H as [s0 [H0 H]].
  simpl in H0. destruct H0 as [<- | []].
  apply in_flat_map in H. destruct H as [s1 [H1 H]].
  apply in_flat_map in H. destruct H as [s2 [H2 H]].
  apply in_flat_map in H. destruct H as [s3 [H3 H]].
  apply in_flat_map in H. destruct H as [s4 [H4 H]].
  destruct (group_inv 1 _ _ _ _ (accepts_lazy_plus_chr anyUnit) H1)
    as [nm [E1 [_ [C1 Hnm]]]].
  destruct (accepts_plus_chr isWhiteSpace _ _ H2)
    as [ws [E2 [_ [C2 Hws]]]].
  destruct (group_inv 2 _ _ _ _ accepts_legacy_priceToken H3)
    as [tok [E3 [_ [C3 Htok]]]].
  destruct (accepts_star_chr isWhiteSpace _ _ H4)
    as [ws' [E4 [_ [C4 Hws']]]].
  unfold eol in H. destruct (rest s4) eqn:E5; [| destruct H].
  destruct H as [<- | []].
  exists nm, ws, tok, ws'. simpl in *.
  repeat split; try tauto.
  - rewrite E1, E2, E3, E4. now rewrite app_nil_r.
  - rewrite C4, C3, C2, C1. reflexivity.
Qed.

Lemma legacy_priceRegex_anchored (i : nat) (s : jsstring) :
  Legacy.priceRegex (mkState (S i) s []) = [].
Proof. reflexivity. Qed.

Lemma legacy_matchPrice_inv (s nm tok : jsstring) :
  Legacy.matchPrice s = Some (nm, tok) ->
  exists ws ws',
    s = nm ++ ws ++ tok ++ ws'
    /\ (nm <> [] /\ unitsOf anyUnit nm)
    /\ (ws <> [] /\ allWhite ws)
    /\ legacyPriceToken tok
    /\ allWhite ws'.
Proof.
  unfold Legacy.matchPrice, exec. intros H.
  destruct (exec_from Legacy.priceRegex 0 s) as [[j st]|] eqn:E;
    [| discriminate].
  apply exec_from_sound in E. destruct E as [k [-> [_ Hin]]].
  destruct k as [|k];
    [| change (0 + S k) with (S k) in Hin;
       rewrite legacy_priceRegex_anchored in Hin; destruct Hin].
  simpl in Hin. apply legacy_priceRegex_inv in Hin.
  destruct Hin as [nm' [ws [tok' [ws' [E [C [Hn [Hw [Ht Hw']]]]]]]]].
  rewrite C in H. simpl in H. inversion H; subst.
  exists ws, ws'. tauto.
Qed.

(** A token of the earlier revision up to its first separator, the
    digits that follow it, and what follows those. *)
Lemma token_first_group (tok : jsstring) :
  legacyPriceToken tok ->
  exists lead g frac rest,
    tok = lead ++ g :: frac ++ rest
    /\ 1 <= length lead <= 3 /\ allDigits lead
    /\ isDecimalSep g = true
    /\ allDigits frac
    /\ ((length frac = 2 /\ rest = [])
        \/ (length frac = 3
            /\ exists g' r, rest = g' :: r /\ isDecimalSep g' = true)).
Proof.
  intros [lead [grp [s [cents [-> [Hl [Hld [Hg [Hs [Hc Hcd]]]]]]]]]].
  destruct Hg as [|g ds w Hgs Hds Hdd Hw].
  - exists lead, s, cents, []. rewrite app_nil_r. cbn [app]. auto 10.
  - exists lead, g, ds, (w ++ s :: cents).
    cbn [app]. rewrite <- app_assoc. repeat split; auto; try tauto.
    right. split; [exact Hds |].
    destruct Hw as [|g' ds' w' Hg' _ _ _].
    + exists s, cents. auto.
    + exists g', ((ds' ++ w') ++ s :: cents). auto.
Qed.

Lemma replaceFirstUnit_skip (c d : codeunit) (a b : jsstring) :
  Forall (fun x => (x =? c)%N = false) a ->
  replaceFirstUnit c d (a ++ b) = a ++ replaceFirstUnit c d b.
Proof.
  induction 1 as [|x a Hx _ IH]; [reflexivity |].
  cbn [app replaceFirstUnit]. now rewrite Hx, IH.
Qed.

Lemma parseFloat_prefix (ip fp r : jsstring) :
  ip <> [] -> allDigits ip -> allDigits fp ->
  match r with [] => True | x :: _ => isDigit x = false end ->
  parseFloat (ip ++ dot :: fp ++ r)
  = decimal (digitsValue (ip ++ fp)) (length fp).
Proof.
  intros Hne Hi Hf Hr. unfold parseFloat.
  assert (Et : trimStart (ip ++ dot :: fp ++ r) = ip ++ dot :: fp ++ r).
  { destruct ip as [|x ip]; [congruence |]. inversion Hi; subst.
    cbn [app trimStart].
    now destruct (digit_not_sep x H1) as [_ [_ ->]]. }
  rewrite Et, (span_digits ip (dot :: fp ++ r) Hi isDigit_dot).
  unfold dot at 1. cbv iota.
  rewrite (span_digits fp r Hf Hr).
  destruct ip as [|x ip]; [congruence | reflexivity].
Qed.

(** The number that the earlier revision reads from a token: the leading
    digits, and as fraction the digits between the first separator and
    the next. *)
Lemma legacy_token_value (tok : jsstring) :
  legacyPriceToken tok ->
  exists lead g frac rest,
    tok = lead ++ g :: frac ++ rest
    /\ 1 <= length lead <= 3 /\ allDigits lead
    /\ isDecimalSep g = true
    /\ allDigits frac
    /\ ((length frac = 2 /\ rest = [])
        \/ (length frac = 3
            /\ exists g' r, rest = g' :: r /\ isDecimalSep g' = true))
    /\ parseFloat (Legacy.normalizePrice tok)
       = decimal (digitsValue (lead ++ frac)) (length frac).
Proof.
  intros H. destruct (token_first_group tok H)
    as [lead [g [frac [rest [-> [Hl [Hld [Hg [Hf Hr]]]]]]]]].
  exists lead, g, frac, rest. repeat split; auto; try tauto.
  assert (Hne : lead <> []) by (destruct lead; simpl in *; [lia | discriminate]).
  assert (Hlc : Forall (fun x => (x =? comma)%N = false) lead)
    by (apply digits_no_unit; [reflexivity | exact Hld]).
  unfold Legacy.normalizePrice.
  destruct (sep_cases g Hg) as [-> | ->].
  - (* the first separator is a dot *)
    replace (lead ++ dot :: frac ++ rest)
      with ((lead ++ dot :: frac) ++ rest)
      by (rewrite <- app_assoc; reflexivity).
    rewrite replaceFirstUnit_skip.
    + rewrite <- app_assoc. cbn [app]. apply parseFloat_prefix; auto.
      destruct Hr as [[_ ->] | [_ [g' [r [-> Hg']]]]]; [exact I |].
      cbn [replaceFirstUnit].
      destruct (sep_cases g' Hg') as [-> | ->]; reflexivity.
    + apply Forall_app. split; [exact Hlc |].
      constructor; [reflexivity |].
      apply digits_no_unit; [reflexivity | exact Hf].
  - (* the first separator is a comma *)
    rewrite replaceFirstUnit_first by exact Hlc.
    apply parseFloat_prefix; auto.
    destruct Hr as [[_ ->] | [_ [g' [r [-> Hg']]]]]; [exact I |].
    now destruct (sep_not_digit_white g' Hg').
Qed.

Lemma legacy_keywords_known (kw : jsstring) :
  In kw Legacy.keywords -> In kw keywords.
Proof.
  unfold Legacy.keywords, keywords. simpl.
  intros H. repeat (destruct H as [<- | H]); auto 12; try destruct H.
Qed.

Lemma legacy_keyword_test (kw s : jsstring) :
  In kw Legacy.keywords -> containsKeyword kw s ->
  test Legacy.keywordRegex s = true.
Proof.
  intros Hin [pre [mid [post [-> Hs]]]].
  destruct (keywords_lower kw (legacy_keywords_known kw Hin)) as [_ Hl].
  unfold test, exec.
  destruct (exec_from Legacy.keywordRegex 0 (pre ++ mid ++ post)) eqn:E;
    [reflexivity |].
  exfalso.
  pose proof (exec_from_none Legacy.keywordRegex _ 0 E pre (mid ++ post)
                eq_refl) as Hnone.
  revert Hnone. unfold Legacy.keywordRegex.
  apply alts_nonempty with (m := lit eqb_ci kw).
  - now apply in_map.
  - rewrite (lit_ci_matches kw mid Hl Hs). discriminate.
Qed.

End LegacyTokenFacts.

Section ExtractorFacts.

Lemma token_length (groups : jsstring -> Prop) (tok : jsstring) :
  tokenShape groups tok -> 4 <= length tok.
Proof.
  intros [lead [grp [s [cents [-> [Hl [_ [_ [_ [Hc _]]]]]]]]]].
  rewrite !length_app. cbn [length]. lia.
Qed.

Lemma match_length (s nm tok : jsstring) :
  matchPrice s = Some (nm, tok) -> 6 <= length s.
Proof.
  intros H. apply matchPrice_inv in H.
  destruct H as [ws [ws' [-> [[Hn _] [[Hw _] [Ht _]]]]]].
  apply token_length in Ht. rewrite !length_app.
  destruct nm; [congruence |]. destruct ws; [congruence |].
  cbn [length]. lia.
Qed.

Lemma removeAll_complement (p : codeunit -> bool) (w : jsstring) :
  unitsOf p (removeAll (fun c => negb (p c)) w).
Proof.
  unfold unitsOf, removeAll. apply Forall_forall. intros c H.
  apply filter_In in H. destruct H as [_ H].
  now apply negb_true_iff, negb_false_iff in H.
Qed.

Lemma loop_spec (P : LineItem -> Prop) :
  (forall line item, parseLine line = Some item -> P item) ->
  forall lines acc,
    Forall P acc -> Forall P (fold_left processLine lines acc).
Proof.
  intros HP lines. induction lines as [|l ls IH]; intros acc H; simpl;
    [exact H |].
  apply IH. unfold processLine.
  destruct (parseLine l) as [it|] eqn:E; [| exact H].
  apply Forall_app. split; [exact H |].
  constructor; [| constructor]. now apply HP with (line := l).
Qed.

End ExtractorFacts.

Section SampleFacts.

Ltac run_session :=
  repeat (apply reach_step; [| vm_compute; auto 12]); apply reach_init.

Lemma reading_reachable : reachable reading.
Proof. unfold reading, party. run_session. Qed.

Lemma uploaded_reachable : reachable uploaded.
Proof. unfold uploaded, reading, party. run_session. Qed.

Lemma shared_reachable : reachable shared.
Proof. unfold shared, uploaded, reading, party. run_session. Qed.

Lemma summarized_reachable : reachable summarized.
Proof. unfold summarized, shared, uploaded, reading, party. run_session. Qed.

Lemma summarized_fresh : reachableFresh summarized.
Proof.
  unfold summarized, shared, uploaded, reading, party.
  repeat (apply fresh_step; [| vm_compute; auto 12 | exact I]).
  apply fresh_init. discriminate.
Qed.

End SampleFacts.

(* ===================================================================== *)
(** ** The session of the application *)
(* ===================================================================== *)

(** *** What every reachable state satisfies *)



(** No item of a reachable state has the price NaN: the parser's sanity
    check, [parseFloat(...) || 0] in the price field and the price 0 of a
    manual item keep it out. *)
Theorem stored_prices_are_numbers (s : AppState) (it : ReceiptItem) :
  reachable s -> In it (App.items s) -> isNaN (itemPrice it) = false.
Proof.
  intros H Hin. destruct (reachable_invariant s H) as [_ [P _]].
  now apply P.
Qed.

(** The same for the second item of the sample session. *)
Lemma stored_prices_witness :
  isNaN (itemPrice (mkReceiptItem (itemIdOf 1) (js "Fries")
                                  (decimal 550 2) []))
  = false.
Proof.
  apply (stored_prices_are_numbers summarized).
  - apply summarized_reachable.
  - vm_compute. auto.
Defined.

(** A read is pending only on the first two screens, and no error
    message is displayed while it is. *)
Theorem processing_stays_before_verification (s : AppState) :
  reachable s -> isProcessing s = true ->
  beforeVerification s /\ error s = None.
Proof.
  intros H Hp. split.
  - destruct (reachable_invariant s H) as [_ [_ [B _]]]. now apply B.
  - destruct (reachable_message s H) as [_ E]. now apply E.
Qed.

(** The same while the sample photo is read. *)
Lemma processing_witness :
  beforeVerification reading /\ error reading = None.
Proof.
  apply (processing_stays_before_verification reading).
  - apply reading_reachable.
  - reflexivity.
Defined.

(** When the Next button is enabled [validateParty] succeeds: the members
    with a blank name are dropped, at least one member is left, the error
    is cleared and the upload screen is shown. *)
Theorem next_button_validates (s : AppState) :
  enabled NextUploadReceipt s ->
  step (validateParty s) = ReceiptUpload
  /\ error (validateParty s) = None
  /\ partyMembers (validateParty s)
     = filter (fun m => negb (isBlank (memberName m))) (partyMembers s)
  /\ partyMembers (validateParty s) <> []
  /\ Forall (fun m => isBlank (memberName m) = false)
            (partyMembers (validateParty s)).
Proof.
  intros [_ En]. rewrite (validateParty_enabled s En).
  cbn [step error partyMembers setStep setError setPartyMembers].
  repeat split.
  - apply valid_members_exist in En. intros H. rewrite H in En.
    discriminate.
  - apply Forall_forall. intros m Hm. apply filter_In in Hm.
    destruct Hm as [_ Hm]. now apply negb_true_iff in Hm.
Qed.

(** The same on the first screen of the sample session. *)
Lemma next_button_witness :
  step (validateParty party) = ReceiptUpload
  /\ error (validateParty party) = None
  /\ partyMembers (validateParty party)
     = filter (fun m => negb (isBlank (memberName m))) (partyMembers party)
  /\ partyMembers (validateParty party) <> []
  /\ Forall (fun m => isBlank (memberName m) = false)
            (partyMembers (validateParty party)).
Proof.
  apply (next_button_validates party).
  split; reflexivity.
Defined.

(** The message of [validateParty] is never displayed in a session: it
    is set only when every name is blank, and then the button that calls
    [validateParty] is disabled. *)
Theorem party_error_is_never_shown (s : AppState) :
  reachable s ->
  error s <> Some partyError
  /\ (forallb (fun m => isBlank (memberName m)) (partyMembers s) = true
      -> error (validateParty s) = Some partyError).
Proof.
  intros H. split; [apply (reachable_message s H) |].
  intros Hb. unfold validateParty.
  destruct (length _ =? 0) eqn:E; [reflexivity |].
  apply valid_members_exist in E. congruence.
Qed.

(** The same after the sample session. *)
Lemma party_error_witness :
  error summarized <> Some partyError
  /\ (forallb (fun m => isBlank (memberName m)) (partyMembers summarized)
      = true
      -> error (validateParty summarized) = Some partyError).
Proof.
  apply (party_error_is_never_shown summarized).
  apply summarized_reachable.
Defined.

(** As long as [generateId] does not repeat a member identifier, the
    members keep distinct identifiers and the party is never empty. *)
Theorem party_stays_well_formed (s : AppState) :
  reachableFresh s -> NoDup (memberIds s) /\ partyMembers s <> [].
Proof.
  induction 1 as [id1 id2 Hne | s ev _ IH En Fr].
  - unfold initialState, memberIds. cbn. split.
    + constructor; [intros [H | []]; congruence |].
      constructor; [intros [] | constructor].
    + discriminate.
  - now apply party_step.
Qed.

(** The same after the sample session. *)
Lemma party_well_formed_witness :
  NoDup (memberIds summarized) /\ partyMembers summarized <> [].
Proof.
  apply (party_stays_well_formed summarized).
  apply summarized_fresh.
Defined.

(** The validation of the party can be bypassed: while a read is pending
    the Back button still works, so a person added on the first screen is
    carried to the verification screen with an empty name when the read
    ends. *)
Theorem blank_member_can_reach_verification
        (s : AppState) (e : Engine) (b : jsstring) (gen : nat -> jsstring)
        (i : jsstring) (r : ParseResult) :
  reachable s -> step s = ReceiptUpload -> isProcessing s = true ->
  fst (run (Legacy.parseReceiptImage e b)) = Ok r ->
  reachable (addedWhileReading e b gen i s)
  /\ step (addedWhileReading e b gen i s) = Verification
  /\ In (mkMember i []) (partyMembers (addedWhileReading e b gen i s)).
Proof.
  intros H Hs Hp Hr. unfold addedWhileReading. split.
  - repeat apply reach_step; try assumption; reflexivity || exact Hp.
  - cbn [handle]. unfold onloadend. rewrite Hr.
    unfold onParsed, handleAddMember.
    cbn [step partyMembers setStep setItems setIsProcessing setError
         setPartyMembers].
    split; [reflexivity |].
    assert (E : forall x : AppState,
               partyMembers (if length (withIds gen 0 (Pipeline.items r)) =? 0
                             then setError
                                    (Some ("We couldn't detect any items automatically. "
                                           ++ "You can add them manually in the next step.")
                                       %string) x
                             else x) = partyMembers x)
      by (intros x; now destruct (length _ =? 0)).
    rewrite E. cbn [partyMembers setPartyMembers setStep].
    apply in_or_app. right. now left.
Qed.

(** The same while the sample photo is read. *)
Lemma blank_member_witness :
  reachable (addedWhileReading (readingEngine receiptTextSpaced)
                               sampleSource itemIdOf (js "z9") reading)
  /\ step (addedWhileReading (readingEngine receiptTextSpaced)
                             sampleSource itemIdOf (js "z9") reading)
     = Verification
  /\ In (mkMember (js "z9") [])
        (partyMembers (addedWhileReading (readingEngine receiptTextSpaced)
                                         sampleSource itemIdOf (js "z9")
                                         reading)).
Proof.
  apply (blank_member_can_reach_verification
           reading (readingEngine receiptTextSpaced) sampleSource itemIdOf
           (js "z9") (mkResult [burger; fries])).
  - apply reading_reachable.
  - reflexivity.
  - reflexivity.
  - vm_compute. reflexivity.
Defined.

(** *** Assignment *)

(** A press on the button of member [m] under item [i] changes only the
    items with the identifier [i], and in them only whether [m] is an
    assignee: [m] is added if absent and removed if present, every other
    member stays as they were, and names and prices are untouched. *)
Theorem toggle_flips_one_button (i m : jsstring) (s : AppState) :
  Forall2 (toggledItem i m) (App.items s)
          (App.items (toggleAssignment i m s)).
Proof.
  rewrite toggle_item. apply Forall2_map_right.
  intros it _. apply toggle_flips.
Qed.

(** Pressing the same button twice gives every item back with the same
    price, name and assignees, up to the order of the assignees (the
    member moves to the end of the list), provided no assignee is listed
    twice, as in every reachable state. *)
Theorem double_toggle_restores (i m : jsstring) (s : AppState) :
  distinctAssignees s ->
  Forall2 sameAssignment (App.items s)
          (App.items (toggleAssignment i m (toggleAssignment i m s))).
Proof.
  intros D. rewrite toggle_item, toggle_item, map_map.
  apply Forall2_map_right. intros it Hin.
  apply (toggle_twice i m it). now apply D.
Qed.

(** The same for the first item and the first member of the sample
    session. *)
Lemma double_toggle_witness :
  Forall2 sameAssignment (App.items shared)
          (App.items (toggleAssignment (itemIdOf 0) ann
                        (toggleAssignment (itemIdOf 0) ann shared))).
Proof.
  apply (double_toggle_restores (itemIdOf 0) ann shared).
  exact (proj1 (reachable_invariant shared shared_reachable)).
Defined.

(** [assignAllTo] makes the member an assignee of every item, and a
    second call changes nothing. *)
Theorem assignAllTo_is_idempotent (m : jsstring) (s : AppState) :
  assignAllTo m (assignAllTo m s) = assignAllTo m s
  /\ forall it, In it (App.items (assignAllTo m s)) -> In m (assignedTo it).
Proof.
  unfold assignAllTo.
  cbn [App.items setItems step partyMembers isProcessing error currency].
  split.
  - unfold setItems.
    cbn [App.items step partyMembers isProcessing error currency].
    f_equal. rewrite map_map. apply map_ext. intros it.
    apply (assignAll_item m it).
  - intros it H. apply in_map_iff in H. destruct H as [it0 [<- _]].
    apply (assignAll_item m it0).
Qed.

(** *** The summary *)

(** The entry of the summary for [k]: defined exactly for the members of
    the party, and then the sum, from 0 and in item order, of one share
    [price / assignees] for every time [k] is listed under an item.  A
    share whose assignee is not a member is dropped silently. *)
Theorem summary_member_total (k : jsstring) (s : AppState) :
  objGet k (fst (calculateSummary s))
  = if includes k (memberIds s)
    then Some (fold_left add (sharesOf k (App.items s)) (ofZ 0))
    else None.
Proof.
  unfold calculateSummary, memberIds.
  rewrite summaryStep_get, zeroed_entries.
  now destruct (includes k (map memberId (partyMembers s))).
Qed.

(** On the screens where the summary is computed nothing is dropped:
    every assignee of every item has an entry, and the entry of a member
    is the sum of one share per item that they are assigned to. *)
Theorem session_summary_drops_no_share (s : AppState) :
  reachable s -> pastUpload s ->
  (forall k, In k (memberIds s) ->
     objGet k (fst (calculateSummary s))
     = Some (fold_left add (map splitPrice (itemsOf k (App.items s)))
                       (ofZ 0)))
  /\ (forall it a, In it (App.items s) -> In a (assignedTo it) ->
        objGet a (fst (calculateSummary s))
        = Some (fold_left add (map splitPrice (itemsOf a (App.items s)))
                          (ofZ 0))).
Proof.
  intros H Hp. destruct (reachable_invariant s H) as [D [_ [_ A]]].
  assert (E : forall k, In k (memberIds s) ->
     objGet k (fst (calculateSummary s))
     = Some (fold_left add (map splitPrice (itemsOf k (App.items s)))
                       (ofZ 0))).
  { intros k Hk. rewrite summary_entry.
    apply includes_In in Hk. rewrite Hk.
    now rewrite (shares_distinct k (App.items s) D). }
  split; [exact E |].
  intros it a Hit Ha. apply E. exact (A Hp it a Hit Ha).
Qed.

(** The same after the sample session. *)
Lemma session_summary_witness :
  (forall k, In k (memberIds summarized) ->
     objGet k (fst (calculateSummary summarized))
     = Some (fold_left add
               (map splitPrice (itemsOf k (App.items summarized))) (ofZ 0)))
  /\ (forall it a, In it (App.items summarized) -> In a (assignedTo it) ->
        objGet a (fst (calculateSummary summarized))
        = Some (fold_left add
                  (map splitPrice (itemsOf a (App.items summarized)))
                  (ofZ 0))).
Proof.
  apply (session_summary_drops_no_share summarized).
  - apply summarized_reachable.
  - right. right. reflexivity.
Defined.

(** When no item is assigned, every member owes 0 and the unassigned
    amount is the total of the bill, computed by the same additions. *)
Theorem nothing_assigned_summary (s : AppState) :
  (forall it, In it (App.items s) -> assignedTo it = []) ->
  snd (calculateSummary s) = totalSpent s
  /\ forall k, In k (memberIds s) ->
       objGet k (fst (calculateSummary s)) = Some (ofZ 0).
Proof.
  intros H. split.
  - rewrite summary_unassigned, (unassigned_all _ H).
    apply fold_left_prices.
  - intros k Hk. rewrite summary_entry.
    apply includes_In in Hk. rewrite Hk.
    now rewrite (shares_none k _ H).
Qed.

(** The same right after the upload of the sample session. *)
Lemma nothing_assigned_witness :
  snd (calculateSummary uploaded) = totalSpent uploaded
  /\ forall k, In k (memberIds uploaded) ->
       objGet k (fst (calculateSummary uploaded)) = Some (ofZ 0).
Proof.
  apply (nothing_assigned_summary uploaded).
  vm_compute. intros it [<- | [<- | []]]; reflexivity.
Defined.

(** When every item has an assignee the unassigned amount is 0, so the
    notice of the summary screen, shown above 0.01, is not displayed. *)
Theorem everything_assigned_summary (s : AppState) :
  (forall it, In it (App.items s) -> assignedTo it <> []) ->
  snd (calculateSummary s) = ofZ 0
  /\ gtb (snd (calculateSummary s)) (decimal 1 2) = false.
Proof.
  intros H. rewrite summary_unassigned, (unassigned_none _ H).
  split; reflexivity.
Qed.

(** The same after the unassigned item of the sample session is
    deleted. *)
Lemma everything_assigned_witness :
  snd (calculateSummary (handleDeleteItem (itemIdOf 1) shared)) = ofZ 0
  /\ gtb (snd (calculateSummary (handleDeleteItem (itemIdOf 1) shared)))
         (decimal 1 2) = false.
Proof.
  apply (everything_assigned_summary (handleDeleteItem (itemIdOf 1) shared)).
  vm_compute. intros it [<- | []]. discriminate.
Defined.

(** *** The upload *)

(** When the engine reads a text, the callback of the reader shows the
    verification screen with one unassigned item per item of the earlier
    revision's extractor, in its order and with the generated
    identifiers; the party is untouched, and the notice of an empty
    extraction is set exactly when there is no item. *)
Theorem upload_shows_the_parsed_items
        (e : Engine) (b text : jsstring) (gen : nat -> jsstring)
        (s : AppState) :
  workerStarts e = true -> recognizedText e b = Some text ->
  workerStops e = true ->
  step (onloadend e b gen s) = Verification
  /\ isProcessing (onloadend e b gen s) = false
  /\ partyMembers (onloadend e b gen s) = partyMembers s
  /\ map itemName (App.items (onloadend e b gen s))
     = map name (Legacy.extractItems text)
  /\ map itemPrice (App.items (onloadend e b gen s))
     = map price (Legacy.extractItems text)
  /\ map itemId (App.items (onloadend e b gen s))
     = map gen (List.seq 0 (length (Legacy.extractItems text)))
  /\ Forall (fun it => assignedTo it = []) (App.items (onloadend e b gen s))
  /\ error (onloadend e b gen s)
     = if length (Legacy.extractItems text) =? 0
       then Some ("We couldn't detect any items automatically. "
                  ++ "You can add them manually in the next step.")%string
       else error s.
Proof.
  intros Hs Hr Ht.
  destruct (legacy_run_cases e b)
    as [[text' [_ [Hr' [_ R]]]] | [[F | [F | F]] _]]; try congruence.
  assert (text' = text) by congruence. subst text'.
  unfold onloadend. rewrite R. unfold onParsed. cbn [Pipeline.items].
  destruct (withIds_fields gen (Legacy.extractItems text) 0)
    as [E1 [E2 E3]].
  cbn [step isProcessing partyMembers App.items error
       setStep setItems setIsProcessing].
  repeat split; auto.
  - now destruct (length _ =? 0).
  - apply Forall_forall. intros it H.
    now apply withIds_In in H.
  - replace (length (withIds gen 0 (Legacy.extractItems text)))
      with (length (Legacy.extractItems text))
      by (rewrite <- (length_map itemName
                            (withIds gen 0 (Legacy.extractItems text))),
            E1, length_map; reflexivity).
    now destruct (length _ =? 0).
Qed.

(** The same for the sample photo. *)
Lemma upload_witness :
  step uploaded = Verification
  /\ isProcessing uploaded = false
  /\ partyMembers uploaded = partyMembers reading
  /\ map itemName (App.items uploaded)
     = map name (Legacy.extractItems receiptTextSpaced)
  /\ map itemPrice (App.items uploaded)
     = map price (Legacy.extractItems receiptTextSpaced)
  /\ map itemId (App.items uploaded)
     = map itemIdOf
           (List.seq 0 (length (Legacy.extractItems receiptTextSpaced)))
  /\ Forall (fun it => assignedTo it = []) (App.items uploaded)
  /\ error uploaded
     = if length (Legacy.extractItems receiptTextSpaced) =? 0
       then Some ("We couldn't detect any items automatically. "
                  ++ "You can add them manually in the next step.")%string
       else error reading.
Proof.
  apply (upload_shows_the_parsed_items
           (readingEngine receiptTextSpaced) sampleSource receiptTextSpaced
           itemIdOf reading); reflexivity.
Defined.

(** When the worker does not start, the recognition throws or the worker
    does not stop, the callback only clears the processing flag and sets
    its own message: the screen, the items and the party stay as they
    were, and the text that may have been read is lost. *)
Theorem failed_upload_changes_nothing
        (e : Engine) (b : jsstring) (gen : nat -> jsstring) (s : AppState) :
  workerStarts e = false \/ recognizedText e b = None
  \/ workerStops e = false ->
  onloadend e b gen s
  = setIsProcessing false
      (setError
         (Some "Failed to read receipt text. Please try a clearer photo."
            %string) s).
Proof.
  intros F.
  destruct (legacy_run_cases e b)
    as [[text [Hs [Hr [Ht _]]]] | [_ R]].
  - destruct F as [F | [F | F]]; congruence.
  - unfold onloadend. rewrite R. reflexivity.
Qed.

(** The same when the recognition throws on the sample photo. *)
Lemma failed_upload_witness :
  onloadend failingEngine sampleSource itemIdOf reading
  = setIsProcessing false
      (setError
         (Some "Failed to read receipt text. Please try a clearer photo."
            %string) reading).
Proof.
  apply (failed_upload_changes_nothing failingEngine sampleSource itemIdOf
                                       reading).
  right. left. reflexivity.
Defined.

(* ===================================================================== *)
(** ** The earlier revision of the extractor *)
(* ===================================================================== *)

(** A line yields an item in the earlier revision only if, between its
    leading and trailing white space, it is a non-empty name, a non-empty
    run of white space and a price token made of 1 to 3 digits, zero or
    more groups of a dot or comma and exactly 3 digits, and a final dot or
    comma followed by exactly 2 digits: here every group has its
    separator, and a space is not one. *)
Theorem legacy_item_needs_separated_groups
        (line : jsstring) (item : LineItem) :
  Legacy.parseLine line = Some item ->
  exists lead nm ws tok trail,
    line = lead ++ nm ++ ws ++ tok ++ trail
    /\ allWhite lead /\ nm <> [] /\ ws <> [] /\ allWhite ws /\ allWhite trail
    /\ Legacy.matchPrice (trim line) = Some (nm, tok)
    /\ legacyPriceToken tok.
Proof.
  intros H. apply legacy_parseLine_inv in H.
  destruct H as [_ [nm [tok [Hm _]]]].
  destruct (legacy_matchPrice_inv _ _ _ Hm)
    as [ws [ws' [E [[Hn _] [[Hw Hw1] [Ht Hw']]]]]].
  destruct (trim_split line) as [lead [trail [El [Wl Wt]]]].
  exists lead, nm, ws, tok, (ws' ++ trail).
  repeat split; auto.
  - rewrite El at 1. rewrite E. now rewrite <- !app_assoc.
  - apply Forall_app. split; assumption.
Qed.

(** The same at the indented line [  Fries 5,50 ]. *)
Lemma legacy_item_witness :
  exists lead nm ws tok trail,
    js "  Fries 5,50 " = lead ++ nm ++ ws ++ tok ++ trail
    /\ allWhite lead /\ nm <> [] /\ ws <> [] /\ allWhite ws /\ allWhite trail
    /\ Legacy.matchPrice (trim (js "  Fries 5,50 ")) = Some (nm, tok)
    /\ legacyPriceToken tok.
Proof.
  apply (legacy_item_needs_separated_groups (js "  Fries 5,50 ") fries).
  vm_compute. reflexivity.
Defined.

(** The price of an item of the earlier revision is the number written by
    the 1 to 3 leading digits of the token, a decimal point, and the
    digits between the first separator and the next one (or the end): a
    token with thousands groups is read with its first group as the
    fraction, whatever the two symbols are. *)
Theorem legacy_price_reads_first_group (line : jsstring) (item : LineItem) :
  Legacy.parseLine line = Some item ->
  exists nm tok lead g frac rest,
    Legacy.matchPrice (trim line) = Some (nm, tok)
    /\ tok = lead ++ g :: frac ++ rest
    /\ 1 <= length lead <= 3 /\ allDigits lead
    /\ isDecimalSep g = true
    /\ allDigits frac
    /\ ((length frac = 2 /\ rest = [])
        \/ (length frac = 3
            /\ exists g' r, rest = g' :: r /\ isDecimalSep g' = true))
    /\ price item = decimal (digitsValue (lead ++ frac)) (length frac).
Proof.
  intros H. apply legacy_parseLine_inv in H.
  destruct H as [_ [nm [tok [Hm [-> _]]]]].
  destruct (legacy_matchPrice_inv _ _ _ Hm)
    as [_ [_ [_ [_ [_ [Ht _]]]]]].
  destruct (legacy_token_value tok Ht)
    as [lead [g [frac [rest [E [Hl [Hd [Hg [Hf [Hr Hv]]]]]]]]]].
  exists nm, tok, lead, g, frac, rest. cbn [price]. auto 10.
Qed.

(** The same at the line [Coffee 1.234,56], read as 1.234. *)
Lemma legacy_price_witness :
  exists nm tok lead g frac rest,
    Legacy.matchPrice (trim (js "Coffee 1.234,56")) = Some (nm, tok)
    /\ tok = lead ++ g :: frac ++ rest
    /\ 1 <= length lead <= 3 /\ allDigits lead
    /\ isDecimalSep g = true
    /\ allDigits frac
    /\ ((length frac = 2 /\ rest = [])
        \/ (length frac = 3
            /\ exists g' r, rest = g' :: r /\ isDecimalSep g' = true))
    /\ price (mkItem (js "Coffee") (decimal 1234 3))
       = decimal (digitsValue (lead ++ frac)) (length frac).
Proof.
  apply (legacy_price_reads_first_group
           (js "Coffee 1.234,56") (mkItem (js "Coffee") (decimal 1234 3))).
  vm_compute. reflexivity.
Defined.

(** The keyword filter of the earlier revision rejects every line that
    contains one of its seven keywords anywhere, in any mix of cases; the
    line contributes nothing to the result. *)
Theorem legacy_keyword_filter_rejects (kw line : jsstring) :
  In kw Legacy.keywords -> containsKeyword kw line ->
  Legacy.parseLine line = None
  /\ forall items, Legacy.processLine items line = items.
Proof.
  intros Hin Hc.
  assert (E : Legacy.parseLine line = None).
  { unfold Legacy.parseLine.
    rewrite (legacy_keyword_test kw (trim line) Hin); [reflexivity |].
    apply containsKeyword_trim; [| exact Hc].
    now apply legacy_keywords_known. }
  split; [exact E |].
  intros items. unfold Legacy.processLine. now rewrite E.
Qed.

(** The same at the line [Taxi 4.50], which contains [tax] as [Tax]. *)
Lemma legacy_keyword_witness :
  Legacy.parseLine (js "Taxi 4.50") = None
  /\ forall items, Legacy.processLine items (js "Taxi 4.50") = items.
Proof.
  apply (legacy_keyword_filter_rejects (js "tax") (js "Taxi 4.50")).
  - vm_compute. tauto.
  - exists [], (js "Tax"), (js "i 4.50"). split; [reflexivity |].
    repeat constructor; vm_compute; tauto.
Defined.

(** Every item of the earlier revision has a name of more than two units
    and a price that is a number above 0; there is no upper bound. *)
Theorem legacy_items_are_sane (text : jsstring) :
  Forall (fun p => 2 < length (name p) /\ isNaN (price p) = false
                   /\ gtb (price p) (ofZ 0) = true)
         (Legacy.extractItems text).
Proof.
  unfold Legacy.extractItems. apply legacy_loop_spec; [| constructor].
  intros line item H. apply legacy_parseLine_inv in H.
  destruct H as [_ [nm [tok [_ [-> Hs]]]]].
  unfold Legacy.sanityCheck in Hs. cbn [name price].
  apply andb_prop in Hs. destruct Hs as [Hs H3].
  apply andb_prop in Hs. destruct Hs as [H1 H2].
  apply Nat.ltb_lt in H1. apply negb_true_iff in H2. auto.
Qed.

(* ===================================================================== *)
(** ** The extractor and the pipeline, further *)
(* ===================================================================== *)

(** The price pattern matches no line of fewer than six units (a name
    unit, a white space and the four units of the shortest token): such a
    line yields no item, and the length guard of the loop, which skips
    the lines of fewer than five units, never decides an outcome. *)
Theorem short_lines_never_match (s : jsstring) :
  length s < 6 ->
  matchPrice s = None
  /\ forall line, trim line = s -> parseLine line = None.
Proof.
  intros H.
  assert (E : matchPrice s = None).
  { destruct (matchPrice s) as [[nm tok]|] eqn:E; [| reflexivity].
    apply match_length in E. lia. }
  split; [exact E |].
  intros line Ht. unfold parseLine. rewrite Ht, E.
  destruct (test keywordRegex s); [reflexivity |].
  now destruct (length s <? 5).
Qed.

(** The same at the five units of [a 1.0]. *)
Lemma short_line_witness :
  matchPrice (js "a 1.0") = None
  /\ forall line, trim line = js "a 1.0" -> parseLine line = None.
Proof.
  apply (short_lines_never_match (js "a 1.0")).
  vm_compute. lia.
Defined.

(** The name of every item consists of ASCII letters, digits, white
    space and the five symbols of the clean-up class only. *)
Theorem item_names_use_the_name_alphabet (text : jsstring) :
  Forall (fun it => unitsOf isNameUnit (name it)) (extractItems text).
Proof.
  unfold extractItems. apply loop_spec; [| constructor].
  intros line item H. apply parseLine_inv in H.
  destruct H as [_ [_ [nm [tok [_ [-> _]]]]]].
  cbn [name]. unfold cleanName. apply removeAll_complement.
Qed.

(** An invocation ends in one of three ways.  When the promise of
    [preprocessImage] stays pending, which is when the image loads, a 2D
    context exists and [getImageData] throws, the invocation never
    settles: no worker is created and nothing is logged.  In every other
    case it either returns a result or logs to [console.error] last and
    throws the one error of the [catch] block. *)
Theorem pipeline_ends_in_three_ways
        (b : Browser) (e : Engine) (img : jsstring) :
  match preprocessImage b img with
  | Pending => run (parseReceiptImage b e img) = (Hangs, [])
  | _ =>
      (exists r log, run (parseReceiptImage b e img) = (Ok r, log))
      \/ (exists log,
            run (parseReceiptImage b e img)
            = (Throw (Error failureMessage), log ++ [ConsoleError]))
  end
  /\ (preprocessImage b img = Pending <->
      exists im,
        loadImage b img = Some im /\ getContext2d b = true
        /\ getImageData b im (fst (targetSize (width im) (height im)))
                         (snd (targetSize (width im) (height im)))
           = None).
Proof.
  split.
  - assert (H : forall processed,
               preprocessImage b img = Resolved processed ->
               (exists r log, run (parseReceiptImage b e img) = (Ok r, log))
               \/ (exists log,
                     run (parseReceiptImage b e img)
                     = (Throw (Error failureMessage),
                        log ++ [ConsoleError]))).
    { intros processed Hp.
      unfold run, parseReceiptImage, tryCatch, bind, awaitPreprocess,
        createWorker, recognize, terminate, bind, emit, ret, throw.
      rewrite Hp. simpl.
      destruct (workerStarts e); simpl;
        [| right; exists [CreateWorker]; reflexivity].
      destruct (recognizedText e processed) as [text|]; simpl;
        [| right; exists [CreateWorker; Recognize processed]; reflexivity].
      destruct (workerStops e); simpl;
        [| right; exists [CreateWorker; Recognize processed; Terminate];
           reflexivity].
      left. destruct (Nat.eqb (length (extractItems text)) 0); simpl; eauto. }
    destruct (preprocessImage b img) as [processed| |] eqn:Hp.
    + now apply (H processed).
    + right. exists [].
      unfold run, parseReceiptImage, tryCatch, bind, awaitPreprocess.
      rewrite Hp. reflexivity.
    + unfold run, parseReceiptImage, tryCatch, bind, awaitPreprocess.
      rewrite Hp. reflexivity.
  - unfold preprocessImage.
    destruct (loadImage b img) as [im|] eqn:L.
    + destruct (getContext2d b) eqn:C.
      * destruct (targetSize (width im) (height im)) as [w h] eqn:T.
        destruct (getImageData b im w h) eqn:G.
        -- split; [discriminate |].
           intros [im' [E [_ G']]]. inversion E; subst im'.
           rewrite T in G'. cbn [fst snd] in G'. congruence.
        -- split; [| reflexivity].
           intros _. exists im. rewrite T. auto.
      * split; [discriminate |].
        intros [im' [_ [F _]]]. discriminate.
    + split; [discriminate |].
      intros [im' [F _]]. discriminate.
Qed.
